(** * Log troubleshooting assistant: retrieval core

    A shallow embedding of the Python sources

      - [src/utils/parser.py]                    (module [Parser])
      - [src/services/rag_engine.py]             (module [RagEngine])
      - [src/services/vector_store_flexible.py]  (module [Flexible])
      - [src/services/vector_store.py] and
        [src/services/knowledge_base.py]         (modules [Kb], [Lookup])
      - [src/utils/chunker.py]                   (module [Chunker])

    together with the properties of the specification that concern them.

    Conventions.  A Python [str] that is scanned character by character is
    a [list ascii], a sequence of code points from U+0000 to U+00FF; on
    these the character classes below are the ones Python uses
    ([str.lower], [str.strip], [\s], [\w], [\d]).  Dictionary keys
    and opaque document texts are [string]s.  A call that can raise returns
    an [outcome]; a method that mutates [self] returns the new object next
    to its outcome, because a Python exception leaves the mutations made
    before it in place. *)

From Stdlib Require Import ZArith List Ascii String Bool Lia Floats Sorted.
From stdpp Require Import gmap strings list sorting.

Set Default Proof Using "Type".
Local Open Scope Z_scope.

(** ** Python values shared by all modules *)

Module Py.

Inductive exn :=
| ImportError
| AttributeError
| IndexError
| ValueError
| TypeError
| EOFError
| UnpicklingError
| LibraryError.

Inductive outcome (A : Type) :=
| Ok (a : A)
| Raise (e : exn).
Arguments Ok {A} a.
Arguments Raise {A} e.

Definition is_ok {A} (o : outcome A) : bool :=
  match o with Ok _ => true | Raise _ => false end.

(** [l[i]] for a Python integer [i]: negative indices count from the end,
    anything outside [-len, len) is an [IndexError]. *)
Definition py_index {A} (l : list A) (i : Z) : option A :=
  let n := Z.of_nat (length l) in
  if 0 <=? i then l !! Z.to_nat i
  else if - n <=? i then l !! Z.to_nat (n + i)
  else None.

(** [l[start:]] *)
Definition py_slice_from {A} (start : Z) (l : list A) : list A :=
  let n := Z.of_nat (length l) in
  if start <? 0 then drop (Z.to_nat (Z.max 0 (n + start))) l
  else drop (Z.to_nat start) l.

(** [sorted(l, key=key, reverse=True)]: a stable sort that only uses [<] on
    the keys; elements with equal keys keep the order they had in [l]. *)
Section Sorted.
Context {A K : Type} (key : A → K) (lt : K → K → bool).

Fixpoint insert_desc (x : A) (l : list A) : list A :=
  match l with
  | [] => [x]
  | y :: l' => if lt (key x) (key y) then y :: insert_desc x l' else x :: y :: l'
  end.

Definition sorted_desc (l : list A) : list A := foldr insert_desc [] l.

End Sorted.

End Py.

(** ** Text: the [str] operations the parser and the engine rely on

    A [str] is a sequence of code points; the model has the code points
    U+0000 to U+00FF, one [ascii] each, and on them the classes below are
    Python's: [str.isspace] (which is also [\s], [str.strip] and
    [str.split]), [\w], [\d] and [str.lower] as Unicode defines them. *)

Module Text.

Definition str := list ascii.

Definition lit (s : string) : str := list_ascii_of_string s.

Definition code (c : ascii) : N := N_of_ascii c.

Definition between (lo hi : N) (c : ascii) : bool :=
  ((lo <=? code c) && (code c <=? hi))%N.

(** [str.isspace], [\s]: the ASCII blanks and separators, NEL and the
    no-break space *)
Definition is_space (c : ascii) : bool :=
  between 9 13 c || between 28 32 c || between 133 133 c || between 160 160 c.
(** [\d]: no decimal digit lies above [9] *)
Definition is_digit : ascii → bool := between 48 57.
(** [[A-Z]], [[a-z]], [[A-Za-z]] *)
Definition is_upper : ascii → bool := between 65 90.
Definition is_lower : ascii → bool := between 97 122.
Definition is_alpha (c : ascii) : bool := is_upper c || is_lower c.
Definition is_char (a c : ascii) : bool := (code a =? code c)%N.
(** the letters and numbers above U+007F: the ordinal indicators, the
    superscripts and fractions, the micro sign, and the accented letters
    but for the multiplication and division signs *)
Definition is_latin1_alnum (c : ascii) : bool :=
  between 170 170 c || between 178 179 c || between 181 181 c
  || between 185 186 c || between 188 190 c
  || between 192 214 c || between 216 246 c || between 248 255 c.
(** [\w] *)
Definition is_word (c : ascii) : bool :=
  is_alpha c || is_digit c || is_char "_" c || is_latin1_alnum c.
(** [.] : anything but a newline *)
Definition is_dot (c : ascii) : bool := negb (is_char "010" c).

(** the capitals: [A] to [Z] and the accented ones; the small letter of
    each lies 32 further *)
Definition is_capital (c : ascii) : bool :=
  is_upper c || between 192 214 c || between 216 222 c.

(** [str.lower()] *)
Definition lower_char (c : ascii) : ascii :=
  if is_capital c then ascii_of_N (code c + 32) else c.
Definition lower (s : str) : str := map lower_char s.

(** [s.startswith(p)], returning what follows the prefix *)
Fixpoint strip_prefix (p s : str) : option str :=
  match p, s with
  | [], _ => Some s
  | a :: p', b :: s' => if is_char a b then strip_prefix p' s' else None
  | _ :: _, [] => None
  end.

(** [sub in s] *)
Fixpoint contains (sub s : str) : bool :=
  match strip_prefix sub s with
  | Some _ => true
  | None => match s with
            | [] => false
            | _ :: s' => contains sub s'
            end
  end.

(** [s.split(sep)] for a one-character separator: never the empty list *)
Fixpoint split_on (sep : ascii) (s : str) : list str :=
  match s with
  | [] => [[]]
  | c :: s' =>
      if is_char sep c then [] :: split_on sep s'
      else match split_on sep s' with
           | l :: ls => (c :: l) :: ls
           | [] => [[c]]
           end
  end.

Definition lines (text : str) : list str := split_on "010" text.

Fixpoint drop_while (p : ascii → bool) (s : str) : str :=
  match s with
  | c :: s' => if p c then drop_while p s' else s
  | [] => []
  end.

Fixpoint take_while (p : ascii → bool) (s : str) : str :=
  match s with
  | c :: s' => if p c then c :: take_while p s' else []
  | [] => []
  end.

(** [s.strip()] *)
Definition strip (s : str) : str :=
  rev (drop_while is_space (rev (drop_while is_space s))).

(** [s.split()]: the maximal runs of non-blank characters *)
Fixpoint words_from (cur : str) (s : str) : list str :=
  match s with
  | [] => if bool_decide (cur = []) then [] else [rev cur]
  | c :: s' =>
      if is_space c
      then (if bool_decide (cur = []) then [] else [rev cur]) ++ words_from [] s'
      else words_from (c :: cur) s'
  end.
Definition words (s : str) : list str := words_from [] s.

(** *** A backtracking matcher for the regular expressions of the sources

    The patterns in the sources are sequences of literals and of greedy
    one-or-more repetitions of a character class, some of them wrapped in
    a capturing group.  The matcher tries, as [re] does, the longest
    repetition first and shortens it when what follows fails. *)

Inductive item :=
| Lit (l : str)
| Many1 (cls : ascii → bool).

Inductive part :=
| Plain (i : item)
| Cap (body : list item).

Fixpoint many1 {R} (cls : ascii → bool) (s : str)
    (k : str → str → option R) : option R :=
  match s with
  | c :: s' =>
      if cls c then
        match many1 cls s' (λ t r, k (c :: t) r) with
        | Some x => Some x
        | None => k [c] s'
        end
      else None
  | [] => None
  end.

Fixpoint m_items {R} (its : list item) (s : str)
    (k : str → str → option R) : option R :=
  match its with
  | [] => k [] s
  | Lit l :: its' =>
      match strip_prefix l s with
      | Some s' => m_items its' s' (λ t r, k (l ++ t) r)
      | None => None
      end
  | Many1 cls :: its' =>
      many1 cls s (λ t1 s1, m_items its' s1 (λ t2 r, k (t1 ++ t2) r))
  end.

Fixpoint m_parts {R} (ps : list part) (s : str)
    (k : list str → str → option R) : option R :=
  match ps with
  | [] => k [] s
  | Plain i :: ps' => m_items [i] s (λ _ s1, m_parts ps' s1 k)
  | Cap body :: ps' =>
      m_items body s (λ t s1, m_parts ps' s1 (λ caps r, k (t :: caps) r))
  end.

(** [re.match(p, s)]: the groups of the match anchored at the start of [s] *)
Definition re_match (ps : list part) (s : str) : option (list str) :=
  m_parts ps s (λ caps _, Some caps).

(** [re.search(p, s)]: the leftmost position at which [p] matches *)
Fixpoint re_search (ps : list part) (s : str) : option (list str) :=
  match re_match ps s with
  | Some caps => Some caps
  | None => match s with
            | [] => None
            | _ :: s' => re_search ps s'
            end
  end.

(** [m.group(1)] *)
Definition group1 (m : option (list str)) : option str :=
  match m with
  | Some (g :: _) => Some g
  | _ => None
  end.

End Text.

(** ** [src/utils/parser.py] *)

Module Parser.
Import Text.

(** [src/models/log_entry.py] *)
Record LogEntry := {
  timestamp : str;
  log_level : str;
  component : str;
  error_code : option str;
  message : str;
  zone : str;
  client : str;
  app : str;
  version : str;
  raw_line : str
}.

(** [[\d\-T:.]] *)
Definition is_stamp (c : ascii) : bool :=
  is_digit c || is_char "-" c || is_char "T" c || is_char ":" c || is_char "." c.
(** [[A-Z_]] *)
Definition is_code (c : ascii) : bool := is_upper c || is_char "_" c.
(** [[^\-]] *)
Definition is_not_dash (c : ascii) : bool := negb (is_char "-" c).

(** [(?P<timestamp>[\d\-T:.]+Z)\s+-\s+(?P<level>\w+)\s+-\s+(?P<full_message>.+)] *)
Definition pattern : list part :=
  [ Cap [Many1 is_stamp; Lit (lit "Z")];
    Plain (Many1 is_space); Plain (Lit (lit "-")); Plain (Many1 is_space);
    Cap [Many1 is_word];
    Plain (Many1 is_space); Plain (Lit (lit "-")); Plain (Many1 is_space);
    Cap [Many1 is_dot] ].

(** [Component=([A-Za-z]+)], [Code=([A-Z_]+)], [Message=([^\-]+)] *)
Definition component_re : list part :=
  [Plain (Lit (lit "Component=")); Cap [Many1 is_alpha]].
Definition code_re : list part :=
  [Plain (Lit (lit "Code=")); Cap [Many1 is_code]].
Definition message_re : list part :=
  [Plain (Lit (lit "Message=")); Cap [Many1 is_not_dash]].

Definition parse_line (line zone client app version : str) : option LogEntry :=
  match re_match pattern (strip line) with
  | Some [ts; level; full_message] =>
      let component_match := group1 (re_search component_re full_message) in
      let code_match := group1 (re_search code_re full_message) in
      let message_match := group1 (re_search message_re full_message) in
      Some {| timestamp := ts;
              log_level := level;
              component := default (lit "Unknown") component_match;
              error_code := code_match;
              message := match message_match with
                         | Some m => strip m
                         | None => full_message
                         end;
              zone := zone; client := client; app := app; version := version;
              raw_line := strip line |}
  | _ => None
  end.

Definition sample_line : str :=
  lit "2025-12-18T01:59:40.205469Z - ERROR - Component=LogIngestor - Code=E_DB_FAIL - Severity=HIGH - Message=disk full - App=Unigy".

End Parser.

(** ** [src/services/rag_engine.py] *)

Module RagEngine.
Import Text.

(** The [log_data] dictionary handed over by the log reader; a key that is
    not present is [None]. *)
Record log_data := {
  raw : option str;
  file_count : option Z
}.

Record log_stats := {
  total_errors : nat;
  stat_file_count : Z;
  unique_components : nat;
  query_matches : nat
}.

Section Engine.
(** What the engine receives from its collaborators: the knowledge-base
    lookup behind [get_relevant_solutions], the report template of
    [_generate_simple_rca] (which also reads the clock), and the iteration
    order of a Python [set], which the language leaves open. *)
Context {solution : Type}.
Variable py_list_set : list str → list str.
Variable get_relevant_solutions : list str → list solution.
Variable _generate_simple_rca : str → log_data → list str → list solution → str.

Record report := {
  rca : str;
  exact_matches : list str;
  similar_errors : list str;
  solutions : list solution;
  stats : log_stats
}.

Inductive response :=
| NoData                (* {"error": "No log data available"} *)
| Report (r : report).

Definition find_exact_matches (query log_text : str) : list str :=
  let query_lower := lower query in
  fold_left
    (λ matches line,
       if contains query_lower (lower line) && contains (lit "ERROR") line
       then matches ++ [line] else matches)
    (lines log_text) [].

Definition keywords : list str :=
  map lit ["connection"; "timeout"; "failed"; "error"; "drop"; "crash"]%string.

(** the inner [for word in ...: if ...: append; break] *)
Definition any_word_hits (ws : list str) (line_lower : str) : bool :=
  existsb (λ word, contains word line_lower && (3 <? length word)%nat) ws.

Definition find_similar_errors (query log_text : str) : list str :=
  let query_words := words (lower query) in
  let similar :=
    fold_left
      (λ similar line,
         if contains (lit "ERROR") line
         then (if any_word_hits (query_words ++ keywords) (lower line)
               then similar ++ [line] else similar)
         else similar)
      (lines log_text) [] in
  py_list_set similar.

(** line 104: [exact_matches if exact_matches else self.find_similar_errors(...)] *)
Definition error_lines (query log_text : str) : list str :=
  match find_exact_matches query log_text with
  | [] => find_similar_errors query log_text
  | exact => exact
  end.

Definition process_query (query : str) (data : option log_data) : response :=
  match data with
  | None => NoData
  | Some d =>
      match raw d with
      | None => NoData
      | Some log_text =>
          let exact := find_exact_matches query log_text in
          let found := error_lines query log_text in
          let sols := get_relevant_solutions found in
          let all_error_lines :=
            filter (λ line, contains (lit "ERROR") line = true) (lines log_text) in
          let all_components :=
            remove_dups
              (omap (λ line, group1 (re_search Parser.component_re line))
                    all_error_lines) in
          Report {| rca := _generate_simple_rca query d found sols;
                    exact_matches := exact;
                    similar_errors := match exact with [] => found | _ => [] end;
                    solutions := sols;
                    stats := {| total_errors := length all_error_lines;
                                stat_file_count := default 0 (file_count d);
                                unique_components := length all_components;
                                query_matches := length found |} |}
      end
  end.

End Engine.

End RagEngine.

(** ** The numeric and nearest-neighbour libraries behind the vector stores

    [numpy], [sentence_transformers], [faiss], [annoy] and [sklearn] are
    not part of the repository.  The stores are written against the
    interface below; a statement that depends on what a library does says
    so in a hypothesis about these operations.  A library call that raises
    answers [None]; the stores pass that on as [LibraryError], so that the
    other exceptions of the model come from the sources' own statements. *)

Module Lib.
Import Py.

(** numpy scalars and the vector operations the sources call *)
Class Numeric := {
  num : Type;
  num0 : num;                       (* the literal 0 *)
  num1 : num;                       (* the literal 1 *)
  nadd : num → num → num;
  nsub : num → num → num;
  nmul : num → num → num;
  ndiv : num → num → num;
  neqb : num → num → bool;          (* == *)
  nltb : num → num → bool;          (* <  *)
  astype32 : num → num;             (* .astype('float32') on one entry *)
  np_dot : list num → list num → num;
  np_norm : list num → num          (* np.linalg.norm *)
}.

Class Libraries `{Numeric} := {
  (** one row of [SentenceTransformer.encode] *)
  embed : string → list num;
  (** [np.argsort(l)] *)
  np_argsort : list num → list nat;
  (** [IndexFlatL2.search(q, k)] on the stored rows: distances and labels *)
  faiss_search : list (list num) → list num → Z → option (list num * list Z);
  (** [annoy.AnnoyIndex] *)
  annoy : Type;
  annoy_new : nat → annoy;
  annoy_add_item : annoy → nat → list num → option annoy;
  annoy_build : annoy → Z → option annoy;
  annoy_get_n_items : annoy → nat;
  annoy_get_nns_by_vector : annoy → list num → Z → option (list Z * list num);
  (** [NearestNeighbors.kneighbors(q, n_neighbors)] on the fitted rows *)
  kneighbors : list (list num) → list num → Z → option (list num * list Z)
}.

End Lib.

(** ** [src/services/vector_store_flexible.py] *)

Module Flexible.
Import Py Lib.

(** Values found in document metadata; [VNone] is also what [dict.get]
    answers for a key that is not there. *)
Inductive pyval :=
| VNone
| VStr (s : string)
| VInt (z : Z)
| VStrs (l : list string).

#[export] Instance pyval_eq_dec : EqDecision pyval.
Proof. solve_decision. Defined.

Abbreviation meta := (gmap string pyval).

(** [m.get(key)] *)
Definition py_get (m : meta) (key : string) : pyval := default VNone (m !! key).

Inductive backend_name := Faiss | Annoy | Sklearn | Numpy.

#[export] Instance backend_name_eq_dec : EqDecision backend_name.
Proof. solve_decision. Defined.

(** Which optional packages can be imported in this environment. *)
Record env := {
  has_faiss : bool;
  has_annoy : bool;
  has_sklearn : bool
}.

Section Store.
Context `{L : Libraries}.

Abbreviation matrix := (list (list num)).

(** What [self.index] can hold. *)
Inductive index_obj :=
| IndexFlatL2 (d : nat) (xb : matrix)      (* faiss: dimension, stored rows *)
| AnnoyIndex (a : annoy)
| NearestNeighbors (fit_X : matrix)        (* sklearn, after [fit] *)
| Ndarray (rows : matrix).

(** The attributes of a [FlexibleVectorStore].  [embeddings] is the
    attribute that only [_add_sklearn] creates: [None] means that
    [hasattr(self, 'embeddings')] is false. *)
Record store := {
  index_name : string;
  index : option index_obj;
  metadata : list meta;
  backend : option backend_name;
  dimension : option nat;
  embeddings : option matrix
}.

Definition set_index (i : option index_obj) (st : store) : store :=
  {| index_name := index_name st; index := i; metadata := metadata st;
     backend := backend st; dimension := dimension st;
     embeddings := embeddings st |}.
Definition set_metadata (m : list meta) (st : store) : store :=
  {| index_name := index_name st; index := index st; metadata := m;
     backend := backend st; dimension := dimension st;
     embeddings := embeddings st |}.
Definition set_backend (b : option backend_name) (st : store) : store :=
  {| index_name := index_name st; index := index st; metadata := metadata st;
     backend := b; dimension := dimension st; embeddings := embeddings st |}.
Definition set_dimension (d : option nat) (st : store) : store :=
  {| index_name := index_name st; index := index st; metadata := metadata st;
     backend := backend st; dimension := d; embeddings := embeddings st |}.
Definition set_embeddings (e : option matrix) (st : store) : store :=
  {| index_name := index_name st; index := index st; metadata := metadata st;
     backend := backend st; dimension := dimension st; embeddings := e |}.

(** The dictionary in a pickle file.  [save_index] writes the four
    keys; when a key is not there [dict.get] answers its default, which
    is [None] for the index and the dimension, the empty list for the
    metadata and the backend the store already has for [backend]: there
    the outer [None] is the key that is not there. *)
Record blob := {
  b_index : option index_obj;
  b_metadata : list meta;
  b_dimension : option nat;
  b_backend : option (option backend_name)
}.

(** A file [<index_name>.pkl]: empty, as [open(..., 'wb')] leaves it when
    [pickle.dump] then raises; bytes that are no pickle; or a pickled
    dictionary. *)
Inductive file :=
| Empty
| Garbage
| Pickled (data : blob).

(** The directory [vector_store_path]: one [<index_name>.pkl] per index. *)
Abbreviation disk := (gmap string file).

(** *** Backend selection

    An initialiser imports its package and keeps a handle on it
    ([self.faiss], [self.AnnoyIndex], [self.NearestNeighbors]); the import
    is its first statement, so a failing initialiser changes nothing.  The
    handles are only read to create a first index of that backend and are
    left out of [store]. *)

Definition _init_faiss (e : env) (st : store) : outcome store :=
  if has_faiss e then Ok (set_dimension None st) else Raise ImportError.
Definition _init_annoy (e : env) (st : store) : outcome store :=
  if has_annoy e then Ok (set_dimension None st) else Raise ImportError.
Definition _init_sklearn (e : env) (st : store) : outcome store :=
  if has_sklearn e then Ok (set_dimension None st) else Raise ImportError.
Definition _init_numpy (e : env) (st : store) : outcome store :=
  Ok (set_dimension None st).

(** the [for backend_name, init_func in backends] loop, with the final
    [raise ImportError] *)
Fixpoint try_backends (bs : list (backend_name * (store → outcome store)))
    (st : store) : outcome store :=
  match bs with
  | [] => Raise ImportError
  | (name, init_func) :: rest =>
      match init_func st with
      | Ok st' => Ok (set_backend (Some name) st')
      | Raise _ => try_backends rest st
      end
  end.

Definition backends (e : env) : list (backend_name * (store → outcome store)) :=
  [ (Faiss, _init_faiss e); (Annoy, _init_annoy e);
    (Sklearn, _init_sklearn e); (Numpy, _init_numpy e) ].

Definition _init_backend (e : env) (st : store) : outcome store :=
  try_backends (backends e) st.

(** *** Persistence *)

(** [pickle.dump] has no form for an annoy index and raises
    [TypeError]; the other indexes, the metadata, numbers and strings are
    written. *)
Definition picklable (i : option index_obj) : bool :=
  match i with
  | Some (AnnoyIndex _) => false
  | _ => true
  end.

(** [pickle.load]: an empty file is an [EOFError]; to rebuild an object
    its package is imported, which fails where the package is missing
    ([ModuleNotFoundError], an [ImportError]); numpy is imported by the
    module itself.  No pickle holds an annoy index, so a file with one is
    read as bytes that are no pickle. *)
Definition unpickle (e : env) (f : file) : outcome blob :=
  match f with
  | Empty => Raise EOFError
  | Garbage => Raise UnpicklingError
  | Pickled data =>
      match b_index data with
      | Some (IndexFlatL2 _ _) =>
          if has_faiss e then Ok data else Raise ImportError
      | Some (NearestNeighbors _) =>
          if has_sklearn e then Ok data else Raise ImportError
      | Some (AnnoyIndex _) => Raise UnpicklingError
      | Some (Ndarray _) | None => Ok data
      end
  end.

(** an exception of [pickle.load] comes before the first assignment *)
Definition load_index (e : env) (d : disk) (st : store) : outcome store :=
  match d !! index_name st with
  | Some f =>
      match unpickle e f with
      | Ok data =>
          Ok (set_backend (default (backend st) (b_backend data))
                (set_dimension (b_dimension data)
                   (set_metadata (b_metadata data) (set_index (b_index data) st))))
      | Raise x => Raise x
      end
  | None => Ok (set_metadata [] (set_index None st))
  end.

(** [open(save_path, 'wb')] empties the file before [pickle.dump] runs *)
Definition save_index (st : store) (d : disk) : outcome unit * disk :=
  if picklable (index st) then
    (Ok (),
     <[ index_name st :=
          Pickled {| b_index := index st; b_metadata := metadata st;
                     b_dimension := dimension st;
                     b_backend := Some (backend st) |} ]> d)
  else (Raise TypeError, <[ index_name st := Empty ]> d).

(** [FlexibleVectorStore(index_name)] *)
Definition new_store (name : string) : store :=
  {| index_name := name; index := None; metadata := []; backend := None;
     dimension := None; embeddings := None |}.

(** [__init__]: [self._init_backend()], then [self.load_index()]; an
    exception of either leaves no object behind. *)
Definition init_with (e : env) (bs : list (backend_name * (store → outcome store)))
    (d : disk) (name : string) : outcome store :=
  match try_backends bs (new_store name) with
  | Ok st => load_index e d st
  | Raise x => Raise x
  end.

Definition init (e : env) (d : disk) (name : string) : outcome store :=
  init_with e (backends e) d name.

(** *** Adding documents *)

Definition encode (texts : list string) : matrix := map embed texts.

(** [embeddings.shape[1]] *)
Definition shape1 (m : matrix) : nat :=
  match m with
  | row :: _ => length row
  | [] => 0%nat
  end.

Definition _add_faiss (embs : matrix) (st : store) : outcome unit * store :=
  let st1 :=
    match index st with
    | None => set_index (Some (IndexFlatL2 (default 0%nat (dimension st)) [])) st
    | Some _ => st
    end in
  match index st1 with
  | Some (IndexFlatL2 d xb) =>
      (Ok (), set_index (Some (IndexFlatL2 d (xb ++ map (map astype32) embs))) st1)
  | _ => (Raise AttributeError, st1)
  end.

(** [for i, embedding in enumerate(embeddings): self.index.add_item(i, ...)] *)
Fixpoint annoy_add_items (a : annoy) (i : nat) (embs : matrix)
    : outcome unit * annoy :=
  match embs with
  | [] => (Ok (), a)
  | embedding :: rest =>
      match annoy_add_item a i (map astype32 embedding) with
      | Some a' => annoy_add_items a' (S i) rest
      | None => (Raise LibraryError, a)
      end
  end.

Definition _add_annoy (embs : matrix) (st : store) : outcome unit * store :=
  let st1 :=
    match index st with
    | None => set_index (Some (AnnoyIndex (annoy_new (default 0%nat (dimension st))))) st
    | Some _ => st
    end in
  match index st1 with
  | Some (AnnoyIndex a) =>
      match annoy_add_items a 0 embs with
      | (Ok _, a1) =>
          match annoy_build a1 10 with
          | Some a2 => (Ok (), set_index (Some (AnnoyIndex a2)) st1)
          | None => (Raise LibraryError, set_index (Some (AnnoyIndex a1)) st1)
          end
      | (Raise x, a1) => (Raise x, set_index (Some (AnnoyIndex a1)) st1)
      end
  | _ => (Raise AttributeError, st1)
  end.

Definition _add_sklearn (embs : matrix) (st : store) : outcome unit * store :=
  match index st with
  | None =>
      (Ok (), set_index (Some (NearestNeighbors embs)) (set_embeddings (Some embs) st))
  | Some i =>
      match embeddings st with
      | None => (Raise AttributeError, st)
      | Some old =>
          let st1 := set_embeddings (Some (old ++ embs)) st in
          match i with
          | NearestNeighbors _ =>
              (Ok (), set_index (Some (NearestNeighbors (old ++ embs))) st1)
          | _ => (Raise AttributeError, st1)
          end
      end
  end.

Definition _add_numpy (embs : matrix) (st : store) : outcome unit * store :=
  match index st with
  | None => (Ok (), set_index (Some (Ndarray embs)) st)
  | Some (Ndarray rows) => (Ok (), set_index (Some (Ndarray (rows ++ embs))) st)
  | Some _ => (Raise ValueError, st)
  end.

Definition add_documents (texts : list string) (metadatas : list meta)
    (st : store) (d : disk) : outcome unit * store * disk :=
  match texts with
  | [] => (Ok (), st, d)
  | _ =>
      let embs := encode texts in
      let st1 := set_dimension (Some (shape1 embs)) st in
      let '(r, st2) :=
        match backend st1 with
        | Some Faiss => _add_faiss embs st1
        | Some Annoy => _add_annoy embs st1
        | Some Sklearn => _add_sklearn embs st1
        | _ => _add_numpy embs st1
        end in
      match r with
      | Raise x => (Raise x, st2, d)
      | Ok _ =>
          let st3 := set_metadata (metadata st2 ++ metadatas) st2 in
          let '(saved, d') := save_index st3 d in
          (saved, st3, d')
      end
  end.

(** *** Searching *)

(** [if filter_metadata:] followed by [all(metadata.get(key) == value ...)] *)
Definition filter_active (f : option meta) : bool :=
  match f with
  | Some fm => negb (bool_decide (fm = ∅))
  | None => false
  end.

Definition filter_matches (f : option meta) (m : meta) : bool :=
  match f with
  | Some fm =>
      forallb (λ kv, bool_decide (py_get m kv.1 = kv.2)) (map_to_list fm)
  | None => true
  end.

Fixpoint format_loop (mds : list meta) (f : option meta)
    (pairs : list (num * Z)) (results : list (num * meta))
    : outcome (list (num * meta)) :=
  match pairs with
  | [] => Ok results
  | (score, idx) :: rest =>
      if idx <? Z.of_nat (length mds) then
        match py_index mds idx with
        | None => Raise IndexError
        | Some m =>
            if filter_active f && negb (filter_matches f m)
            then format_loop mds f rest results
            else format_loop mds f rest (results ++ [(score, m)])
        end
      else format_loop mds f rest results
  end.

(** [float(score)] leaves a score as it is; [zip] stops at the shorter
    sequence. *)
Definition _format_results (st : store) (scores : list num) (indices : list Z)
    (f : option meta) : outcome (list (num * meta)) :=
  match format_loop (metadata st) f (zip scores indices) [] with
  | Ok results => Ok (sorted_desc fst nltb results)
  | Raise x => Raise x
  end.

(** the distances themselves are handed on as scores *)
Definition _search_faiss (st : store) (q : list num) (top_k : Z)
    (f : option meta) : outcome (list (num * meta)) :=
  match index st with
  | Some (IndexFlatL2 d xb) =>
      match faiss_search xb (map astype32 q)
              (Z.min top_k (Z.of_nat (length xb))) with
      | Some (distances, indices) => _format_results st distances indices f
      | None => Raise LibraryError
      end
  | _ => Raise AttributeError
  end.

Definition _search_annoy (st : store) (q : list num) (top_k : Z)
    (f : option meta) : outcome (list (num * meta)) :=
  match index st with
  | Some (AnnoyIndex a) =>
      match annoy_get_nns_by_vector a (map astype32 q) top_k with
      | Some (indices, distances) =>
          let similarities := map (λ d, ndiv num1 (nadd num1 d)) distances in
          _format_results st similarities indices f
      | None => Raise LibraryError
      end
  | _ => Raise AttributeError
  end.

Definition _search_sklearn (st : store) (q : list num) (top_k : Z)
    (f : option meta) : outcome (list (num * meta)) :=
  match index st with
  | Some (NearestNeighbors fit_X) =>
      match embeddings st with
      | None => Raise AttributeError
      | Some e =>
          match kneighbors fit_X q (Z.min top_k (Z.of_nat (length e))) with
          | Some (distances, indices) =>
              let similarities := map (λ d, nsub num1 d) distances in
              _format_results st similarities indices f
          | None => Raise LibraryError
          end
      end
  | _ => Raise AttributeError
  end.

(** the body of the [for i, doc_embedding in enumerate(self.index)] loop *)
Definition cosine (q doc : list num) : num :=
  let query_norm := np_norm q in
  if neqb query_norm num0 || neqb (np_norm doc) num0 then num0
  else ndiv (np_dot q doc) (nmul query_norm (np_norm doc)).

(** [[similarities[i] for i in top_indices]] *)
Fixpoint pick (similarities : list num) (top_indices : list nat)
    : outcome (list num) :=
  match top_indices with
  | [] => Ok []
  | i :: rest =>
      match similarities !! i with
      | None => Raise IndexError
      | Some s =>
          match pick similarities rest with
          | Ok l => Ok (s :: l)
          | Raise x => Raise x
          end
      end
  end.

Definition _search_numpy (st : store) (q : list num) (top_k : Z)
    (f : option meta) : outcome (list (num * meta)) :=
  match index st with
  | Some (Ndarray rows) =>
      let similarities := map (cosine q) rows in
      let top_indices := rev (py_slice_from (- top_k) (np_argsort similarities)) in
      match pick similarities top_indices with
      | Ok top_similarities =>
          _format_results st top_similarities (map Z.of_nat top_indices) f
      | Raise x => Raise x
      end
  | _ => Raise TypeError
  end.

Definition search (st : store) (query : string) (top_k : Z) (f : option meta)
    : outcome (list (num * meta)) :=
  match index st, metadata st with
  | None, _ | _, [] => Ok []
  | Some _, _ :: _ =>
      let query_embedding := embed query in
      match backend st with
      | Some Faiss => _search_faiss st query_embedding top_k f
      | Some Annoy => _search_annoy st query_embedding top_k f
      | Some Sklearn => _search_sklearn st query_embedding top_k f
      | _ => _search_numpy st query_embedding top_k f
      end
  end.

Definition size (st : store) : outcome nat :=
  match backend st with
  | Some Faiss =>
      match index st with
      | None => Ok 0%nat
      | Some (IndexFlatL2 _ xb) => Ok (length xb)
      | Some _ => Raise AttributeError
      end
  | Some Annoy =>
      match index st with
      | None => Ok 0%nat
      | Some (AnnoyIndex a) => Ok (annoy_get_n_items a)
      | Some _ => Raise AttributeError
      end
  | Some Sklearn =>
      match embeddings st with
      | Some e => Ok (length e)
      | None => Ok 0%nat
      end
  | _ =>
      match index st with
      | None => Ok 0%nat
      | Some (Ndarray rows) => Ok (length rows)
      | Some _ => Raise TypeError
      end
  end.

End Store.

End Flexible.

(** ** [src/services/vector_store.py] and [src/services/knowledge_base.py] *)

Module Kb.
Import Py Lib.
Export Flexible.

(** [src/models/knowledge_entry.py] *)
Record KnowledgeEntry `{Numeric} := {
  issue : string;
  root_cause : string;
  solution : string;
  affected_components : list string;
  tags : list string;
  confidence : num
}.

Section Kb.
Context `{L : Libraries}.

Abbreviation matrix := (list (list num)).

(** [faiss.IndexFlatL2]: its dimension and the rows added so far *)
Record flat := { flat_d : nat; flat_xb : matrix }.

(** [VectorStore] *)
Record vstore := {
  vs_name : string;
  vs_index : option flat;
  vs_metadata : list meta
}.

(** The files of the two classes: [<name>.faiss] and [<name>_meta.pkl]
    under [vector_store_path], and the JSON files of the knowledge base. *)
Record files := {
  faiss_files : gmap string flat;
  pkl_files : gmap string (list meta);
  json_files : gmap string (list KnowledgeEntry)
}.

Definition vs_load_index (fs : files) (name : string) : vstore :=
  match faiss_files fs !! name, pkl_files fs !! name with
  | Some i, Some m => {| vs_name := name; vs_index := Some i; vs_metadata := m |}
  | _, _ => {| vs_name := name; vs_index := None; vs_metadata := [] |}
  end.

(** [VectorStore(index_name)] *)
Definition vs_init (fs : files) (name : string) : vstore := vs_load_index fs name.

Definition vs_save_index (vs : vstore) (fs : files) : files :=
  match vs_index vs with
  | Some i =>
      {| faiss_files := <[ vs_name vs := i ]> (faiss_files fs);
         pkl_files := <[ vs_name vs := vs_metadata vs ]> (pkl_files fs);
         json_files := json_files fs |}
  | None => fs
  end.

Definition vs_add_documents (texts : list string) (metadatas : list meta)
    (vs : vstore) (fs : files) : vstore * files :=
  match texts with
  | [] => (vs, fs)
  | _ =>
      let embs := encode texts in
      let i := match vs_index vs with
               | None => {| flat_d := shape1 embs; flat_xb := [] |}
               | Some i => i
               end in
      let vs' :=
        {| vs_name := vs_name vs;
           vs_index := Some {| flat_d := flat_d i;
                               flat_xb := flat_xb i ++ map (map astype32) embs |};
           vs_metadata := vs_metadata vs ++ metadatas |} in
      (vs', vs_save_index vs' fs)
  end.

Definition vs_size (vs : vstore) : nat :=
  match vs_index vs with
  | Some i => length (flat_xb i)
  | None => 0%nat
  end.

(** [KnowledgeBase] *)
Record kb := {
  kb_path : string;
  entries : list KnowledgeEntry;
  vector_store : vstore
}.

Definition default_entries : list KnowledgeEntry :=
  [ {| issue := "Database connection timeout";
       root_cause := "Connection pool exhausted or network latency";
       solution := "Increase connection pool size, check network connectivity";
       affected_components := ["Database"; "API"];
       tags := ["database"; "timeout"; "connection"];
       confidence := num1 |};
    {| issue := "API 500 Internal Server Error";
       root_cause := "Application code error or missing dependency";
       solution := "Check application logs, verify dependencies, restart service";
       affected_components := ["API"; "Application Server"];
       tags := ["api"; "500"; "server"];
       confidence := num1 |};
    {| issue := "Configuration mismatch";
       root_cause := "Version mismatch between services or incorrect settings";
       solution := "Verify configuration files, ensure version compatibility";
       affected_components := ["All"];
       tags := ["config"; "version"; "settings"];
       confidence := num1 |} ]%string.

Definition save_kb (k : kb) (fs : files) : files :=
  {| faiss_files := faiss_files fs; pkl_files := pkl_files fs;
     json_files := <[ kb_path k := entries k ]> (json_files fs) |}.

Definition set_entries (es : list KnowledgeEntry) (k : kb) : kb :=
  {| kb_path := kb_path k; entries := es; vector_store := vector_store k |}.

Definition load_kb (k : kb) (fs : files) : kb * files :=
  match json_files fs !! kb_path k with
  | Some data => (set_entries data k, fs)
  | None =>
      let k' := set_entries default_entries k in
      (k', save_kb k' fs)
  end.

Definition nl : string := String "010" EmptyString.

(** the text and the metadata [index_kb] builds for entry number [i] *)
Definition entry_text (e : KnowledgeEntry) : string :=
  ("Issue: " +:+ issue e +:+ nl +:+ "Root Cause: " +:+ root_cause e +:+ nl
   +:+ "Solution: " +:+ solution e)%string.

Definition entry_metadata (i : nat) (e : KnowledgeEntry) : meta :=
  <[ "id" := VInt (Z.of_nat i) ]>
  (<[ "issue" := VStr (issue e) ]>
  (<[ "root_cause" := VStr (root_cause e) ]>
  (<[ "solution" := VStr (solution e) ]>
  (<[ "affected_components" := VStrs (affected_components e) ]>
  (<[ "tags" := VStrs (tags e) ]>
  (<[ "type" := VStr "kb_fix" ]> ∅))))))%string.

Definition index_kb (k : kb) (fs : files) : kb * files :=
  let texts := map entry_text (entries k) in
  let metadatas := imap entry_metadata (entries k) in
  let '(vs, fs') := vs_add_documents texts metadatas (vector_store k) fs in
  ({| kb_path := kb_path k; entries := entries k; vector_store := vs |}, fs').

(** [kb_path or "./data/kb/fixes.json"] *)
Definition path_or_default (path : option string) : string :=
  match path with
  | Some p => if bool_decide (p = ""%string) then "./data/kb/fixes.json"%string else p
  | None => "./data/kb/fixes.json"%string
  end.

(** [KnowledgeBase(kb_path)] *)
Definition kb_init (path : option string) (fs : files) : kb * files :=
  let k0 := {| kb_path := path_or_default path;
               entries := [];
               vector_store := vs_init fs "kb_index" |} in
  let '(k1, fs1) := load_kb k0 fs in
  index_kb k1 fs1.

Definition add_fix (issue root_cause solution : string)
    (affected_components tags : list string) (k : kb) (fs : files) : kb * files :=
  let new_entry :=
    {| issue := issue; root_cause := root_cause; solution := solution;
       affected_components := affected_components; tags := tags;
       confidence := num1 |} in
  let k1 := set_entries (entries k ++ [new_entry]) k in
  let fs1 := save_kb k1 fs in
  index_kb k1 fs1.

Definition no_files : files :=
  {| faiss_files := ∅; pkl_files := ∅; json_files := ∅ |}.

End Kb.

End Kb.

(** ** Reference implementations of the library interface

    Executable stand-ins for the libraries, used to run the stores on
    concrete inputs: IEEE binary64 arithmetic, exact scans for the three
    nearest-neighbour packages, and a two-coordinate encoder. *)

Module Reference.
Import Py Lib.

Definition float_dot (a b : list float) : float :=
  fold_left (λ acc xy, (acc + xy.1 * xy.2)%float) (zip a b) 0%float.

#[export] Instance float_numeric : Numeric := {|
  num := float;
  num0 := 0%float;
  num1 := 1%float;
  nadd := PrimFloat.add;
  nsub := PrimFloat.sub;
  nmul := PrimFloat.mul;
  ndiv := PrimFloat.div;
  neqb := PrimFloat.eqb;
  nltb := PrimFloat.ltb;
  astype32 := λ x, x;
  np_dot := float_dot;
  np_norm := λ v, PrimFloat.sqrt (float_dot v v)
|}.

Section Scans.
Context `{N : Numeric}.

(** a stable ascending sort of positions by their value, as numpy's
    insertion sort on short arrays *)
Fixpoint insert_asc (p : nat * num) (sorted : list (nat * num)) : list (nat * num) :=
  match sorted with
  | [] => [p]
  | q :: rest =>
      if nltb q.2 p.2 then q :: insert_asc p rest else p :: q :: rest
  end.

Definition sort_positions (l : list num) : list (nat * num) :=
  foldr insert_asc [] (imap pair l).

Definition argsort_stable (l : list num) : list nat :=
  map fst (sort_positions l).

Definition sq_l2 (a b : list num) : num :=
  let diff := zip_with nsub a b in np_dot diff diff.

Definition cosine_distance (a b : list num) : num :=
  nsub num1 (ndiv (np_dot a b) (nmul (np_norm a) (np_norm b))).

Definition unit_vector (a : list num) : list num :=
  map (λ x, ndiv x (np_norm a)) a.

Definition angular_distance (a b : list num) : num :=
  np_norm (zip_with nsub (unit_vector a) (unit_vector b)).

(** the [k] nearest rows for a distance, nearest first *)
Definition scan (dist : list num → list num → num)
    (rows : list (list num)) (q : list num) (k : Z) : list num * list Z :=
  let nearest := take (Z.to_nat k) (sort_positions (map (dist q) rows)) in
  (map snd nearest, map (λ p, Z.of_nat p.1) nearest).

(** [annoy.AnnoyIndex]: the items by id, and whether [build] was called.
    [add_item(i, v)] allocates ids up to [i]; a built index cannot be
    built again. *)
Record annoy_ref := { a_items : list (list num); a_built : bool }.

Definition annoy_ref_add (a : annoy_ref) (i : nat) (v : list num) : annoy_ref :=
  {| a_items :=
       <[ i := v ]> (a_items a ++ replicate (S i - length (a_items a)) []);
     a_built := a_built a |}.

Definition annoy_ref_build (a : annoy_ref) : option annoy_ref :=
  if a_built a then None
  else Some {| a_items := a_items a; a_built := true |}.

End Scans.

(** the encoder of the examples: the length of the text and a constant *)
Definition toy_embed (s : string) : list float :=
  [PrimFloat.of_uint63 (Uint63.of_Z (Z.of_nat (String.length s))); 1%float].

#[export] Instance float_libraries : Libraries := {|
  embed := toy_embed;
  np_argsort := argsort_stable;
  faiss_search := λ xb q k,
    if k <=? 0 then None else Some (scan sq_l2 xb q k);
  annoy := annoy_ref;
  annoy_new := λ _, {| a_items := []; a_built := false |};
  annoy_add_item := λ a i v, Some (annoy_ref_add a i v);
  annoy_build := λ a _, annoy_ref_build a;
  annoy_get_n_items := λ a, length (a_items a);
  annoy_get_nns_by_vector := λ a q n,
    let '(ds, ids) := scan angular_distance (a_items a) q n in
    Some (ids, ds);
  kneighbors := λ fit_X q k,
    if k <=? 0 then None else Some (scan cosine_distance fit_X q k)
|}.

End Reference.

(** ** Scenarios: the stores on concrete inputs *)

Module Scenario.
Import Py Lib Flexible Reference.
Local Open Scope string_scope.

Definition doc_meta (i : Z) : meta := {[ "id" := VInt i ]}.

Definition no_packages : env :=
  {| has_faiss := false; has_annoy := false; has_sklearn := false |}.
Definition only_sklearn : env :=
  {| has_faiss := false; has_annoy := false; has_sklearn := true |}.
Definition only_annoy : env :=
  {| has_faiss := false; has_annoy := true; has_sklearn := false |}.
Definition every_package : env :=
  {| has_faiss := true; has_annoy := true; has_sklearn := true |}.

(** [FlexibleVectorStore()] in environment [e] over the files [d] *)
Definition opened (e : env) (d : gmap string file) : store :=
  match init e d "log_index" with
  | Ok st => st
  | Raise _ => new_store "log_index"
  end.

(** the store and the files after one more [add_documents] *)
Definition added (texts : list string) (metas : list meta)
    (w : store * gmap string file) : store * gmap string file :=
  let '(_, st, d) := add_documents texts metas w.1 w.2 in (st, d).

(** two documents with the same text, added in one batch to a new index *)
Definition twins (e : env) : store * gmap string file :=
  added ["a"; "a"] [doc_meta 0; doc_meta 1] (opened e ∅, ∅).

Definition single (e : env) : store * gmap string file :=
  added ["a"] [doc_meta 0] (opened e ∅, ∅).

End Scenario.

(** ** [src/utils/chunker.py] *)

Module Chunker.
Import Text.

(** [LogChunker]: the size of a chunk in characters and the overlap in
    lines, both plain integers *)
Record LogChunker := {
  chunk_size : Z;
  overlap : Z
}.

(** [LogChunker()] *)
Definition default_chunker : LogChunker := {| chunk_size := 500; overlap := 50 |}.

(** [sep.join(l)] *)
Fixpoint join (sep : str) (l : list str) : str :=
  match l with
  | [] => []
  | [x] => x
  | x :: rest => x ++ sep ++ join sep rest
  end.

Definition newline : str := ["010"%char].

(** [sum(len(l) for l in current_chunk)] *)
Definition total_length (l : list str) : Z :=
  fold_left (λ acc x, acc + Z.of_nat (length x)) l 0.

(** the state of the loop: [chunks], [current_chunk], [current_length] *)
Definition loop_state : Type := list str * list str * Z.

(** one turn of [for line in lines] *)
Definition chunk_step (c : LogChunker) (s : loop_state) (line : str) : loop_state :=
  let '(chunks, current_chunk, current_length) := s in
  let line_length := Z.of_nat (length line) in
  let '(chunks, current_chunk, current_length) :=
    if (chunk_size c <? current_length + line_length)
       && negb (bool_decide (current_chunk = []))
    then
      let overlap_start := Z.max 0 (Z.of_nat (length current_chunk) - overlap c) in
      let kept := drop (Z.to_nat overlap_start) current_chunk in
      (chunks ++ [join newline current_chunk], kept, total_length kept)
    else (chunks, current_chunk, current_length) in
  (chunks, current_chunk ++ [line], current_length + line_length).

Definition chunk_by_semantics (c : LogChunker) (text : str) : list str :=
  let '(chunks, current_chunk, _) :=
    fold_left (chunk_step c) (lines text) ([], [], 0) in
  if bool_decide (current_chunk = []) then chunks
  else chunks ++ [join newline current_chunk].

End Chunker.

(** ** [VectorStore.search] and the lookups of [src/services/knowledge_base.py] *)

Module Lookup.
Import Py Lib Text.
Export Kb.

(** What a lookup can raise: the exceptions of the store, and the
    [KeyError] of a subscript on a dictionary. *)
Inductive error :=
| Exn (e : exn)
| KeyError (key : string).

Inductive res (A : Type) :=
| Done (a : A)
| Fail (e : error).
Arguments Done {A} a.
Arguments Fail {A} e.

#[export] Instance res_ret : MRet res := λ A a, Done a.
#[export] Instance res_bind : MBind res :=
  λ A B f r, match r with Done a => f a | Fail e => Fail e end.

(** [for x in l: s = body(s, x)], stopping at the first exception *)
Fixpoint for_each {A S} (body : S → A → res S) (l : list A) (s : S) : res S :=
  match l with
  | [] => Done s
  | x :: l' => s' ← body s x; for_each body l' s'
  end.

(** [round(x, 3)] on a numpy scalar and the two thresholds *)
Class Decimal `{Numeric} := {
  round3 : num → num;
  num_0_8 : num;                    (* the literal 0.8 *)
  num_0_6 : num                     (* the literal 0.6 *)
}.

(** the dictionaries [search_similar_issues] returns *)
Record issue_hit `{Numeric} := {
  h_similarity : num;
  h_issue : pyval;
  h_root_cause : pyval;
  h_solution : pyval;
  h_affected_components : pyval;
  h_confidence : string
}.

(** the dictionaries [search_solutions] returns *)
Record kb_solution := {
  error_type : pyval;
  sol_component : pyval;
  sol_confidence : string;
  sol_root_cause : pyval;
  solution_steps : list string;
  prevention : string;
  resources : list string
}.

(** [m[key]] *)
Definition py_item (m : meta) (key : string) : res pyval :=
  match m !! key with
  | Some v => Done v
  | None => Fail (KeyError key)
  end.

(** [if v:] *)
Definition py_truthy (v : pyval) : bool :=
  match v with
  | VNone => false
  | VStr s => negb (bool_decide (s = ""%string))
  | VInt z => negb (z =? 0)
  | VStrs l => negb (bool_decide (l = []))
  end.

(** [v[0]] *)
Definition py_first (v : pyval) : res pyval :=
  match v with
  | VStr (String c _) => Done (VStr (String c ""))
  | VStrs (x :: _) => Done (VStr x)
  | VStr EmptyString | VStrs [] => Fail (Exn IndexError)
  | VNone | VInt _ => Fail (Exn TypeError)
  end.

(** [[step.strip() for step in v.split('.') if step.strip()]] *)
Definition steps_of (v : pyval) : res (list string) :=
  match v with
  | VStr s =>
      Done (map (λ step, string_of_list_ascii (strip step))
              (List.filter (λ step, negb (bool_decide (strip step = [])))
                 (split_on "." (lit s))))
  | _ => Fail (Exn AttributeError)
  end.

Definition mock_solutions : gmap string (list kb_solution) :=
  <[ "ERR-001" :=
       [ {| error_type := VStr "Database Connection Timeout";
            sol_component := VStr "Database";
            sol_confidence := "High";
            sol_root_cause := VStr "Connection pool exhaustion or network latency";
            solution_steps :=
              [ "Increase connection pool size in application.properties";
                "Check database server resources";
                "Verify network connectivity";
                "Add connection timeout retry logic" ];
            prevention := "Monitor connection pool metrics regularly";
            resources := ["DB Connection Guide"; "Troubleshooting Handbook"] |} ] ]>
  (<[ "ERR-002" :=
       [ {| error_type := VStr "Memory Overflow";
            sol_component := VStr "JVM";
            sol_confidence := "Medium";
            sol_root_cause := VStr "Memory leak in application code";
            solution_steps :=
              [ "Increase heap size with -Xmx parameter";
                "Run memory profiler to identify leaks";
                "Check for infinite loops";
                "Review recent code changes" ];
            prevention := "Regular memory profiling and code reviews";
            resources := ["JVM Tuning Guide"; "Memory Management"] |} ] ]> ∅)%string.

Section Lookups.
Context `{L : Libraries} {D : Decimal}.

(** the loop of [VectorStore.search]: the similarity is computed for the
    neighbours that are kept *)
Fixpoint vs_search_loop (mds : list meta) (f : option meta)
    (pairs : list (num * Z)) (results : list (num * meta))
    : outcome (list (num * meta)) :=
  match pairs with
  | [] => Ok results
  | (dist, idx) :: rest =>
      if idx <? Z.of_nat (length mds) then
        match py_index mds idx with
        | None => Raise IndexError
        | Some m =>
            if filter_active f && negb (filter_matches f m)
            then vs_search_loop mds f rest results
            else
              let similarity := ndiv num1 (nadd num1 dist) in
              vs_search_loop mds f rest (results ++ [(similarity, m)])
        end
      else vs_search_loop mds f rest results
  end.

(** [VectorStore.search] *)
Definition vs_search (vs : vstore) (query : string) (top_k : Z) (f : option meta)
    : outcome (list (num * meta)) :=
  match vs_index vs with
  | None => Ok []
  | Some i =>
      let ntotal := length (flat_xb i) in
      if bool_decide (ntotal = 0%nat) then Ok []
      else
        match faiss_search (flat_xb i) (map astype32 (embed query))
                (Z.min top_k (Z.of_nat ntotal)) with
        | Some (distances, indices) =>
            match vs_search_loop (vs_metadata vs) f (zip distances indices) [] with
            | Ok results => Ok (sorted_desc fst nltb results)
            | Raise x => Raise x
            end
        | None => Raise LibraryError
        end
  end.

Definition confidence_label (similarity : num) : string :=
  if nltb num_0_8 similarity then "High"
  else if nltb num_0_6 similarity then "Medium"
  else "Low".

(** one turn of the loop of [search_similar_issues] *)
Definition format_hit (r : num * meta) : res issue_hit :=
  let '(similarity, metadata) := r in
  issue ← py_item metadata "issue";
  root_cause ← py_item metadata "root_cause";
  solution ← py_item metadata "solution";
  affected_components ← py_item metadata "affected_components";
  mret {| h_similarity := round3 similarity;
          h_issue := issue;
          h_root_cause := root_cause;
          h_solution := solution;
          h_affected_components := affected_components;
          h_confidence := confidence_label similarity |}.

Definition search_similar_issues (k : kb) (query : string) (top_k : Z)
    : res (list issue_hit) :=
  match vs_search (vector_store k) query top_k None with
  | Ok results => mapM format_hit results
  | Raise e => Fail (Exn e)
  end.

(** one turn of the second loop of [search_solutions] *)
Definition solution_of_hit (result : issue_hit) : res kb_solution :=
  component ←
    (if py_truthy (h_affected_components result)
     then py_first (h_affected_components result)
     else Done (VStr "Unknown"));
  steps ← steps_of (h_solution result);
  mret {| error_type := h_issue result;
          sol_component := component;
          sol_confidence := h_confidence result;
          sol_root_cause := h_root_cause result;
          solution_steps := steps;
          prevention := "Regular monitoring and maintenance";
          resources := ["Knowledge Base Entry"%string] |}.

Definition search_solutions (k : kb) (error_code : string) : res (list kb_solution) :=
  match mock_solutions !! error_code with
  | Some sols => Done sols
  | None =>
      vector_results ← search_similar_issues k error_code 2;
      mapM solution_of_hit vector_results
  end.

End Lookups.

End Lookup.

(** ** [RAGEngine.get_relevant_solutions] *)

Module Solutions.
Import Py Lib Text.
Export Lookup.

(** the dictionaries [get_relevant_solutions] returns *)
Record found := {
  f_error : pyval;
  f_solution : pyval;
  exact_match : bool;
  source_line : str
}.

(** [line[:100] + "..." if len(line) > 100 else line] *)
Definition shorten (line : str) : str :=
  if (100 <? length line)%nat then take 100 line ++ lit "..." else line.

Section Solutions.
Context `{L : Libraries} {D : Decimal}.

(** one turn of [for line in error_lines[:5]].  The dictionaries of
    [search_solutions] all have the keys [solution_steps] and
    [error_type], so the defaults of the two [get] are never used. *)
Definition solutions_for (k : kb) (solutions : list found) (line : str)
    : res (list found) :=
  match group1 (re_search Parser.code_re line) with
  | None => Done solutions
  | Some code =>
      let error_code := string_of_list_ascii code in
      kb_results ← search_solutions k error_code;
      match kb_results with
      | kb_sol :: _ =>
          let solution_text := String.concat nl (solution_steps kb_sol) in
          Done (solutions ++
                  [ {| f_error := error_type kb_sol;
                       f_solution := VStr solution_text;
                       exact_match := true;
                       source_line := shorten line |} ])
      | [] =>
          similar_issues ← search_similar_issues k error_code 1;
          match similar_issues with
          | hit :: _ =>
              Done (solutions ++
                      [ {| f_error := h_issue hit;
                           f_solution := h_solution hit;
                           exact_match := false;
                           source_line := shorten line |} ])
          | [] => Done solutions
          end
      end
  end.

Definition get_relevant_solutions (k : kb) (error_lines : list str)
    : res (list found) :=
  for_each (solutions_for k) (take 5 error_lines) [].

End Solutions.

End Solutions.

(** * Properties *)

(** ** Text and matcher *)

Module TextFacts.
Import Text.

Lemma is_char_eq a b : is_char a b = true ↔ a = b.
Proof.
  unfold is_char, code. rewrite N.eqb_eq. split; [|congruence].
  intros H. rewrite <- (ascii_N_embedding a), <- (ascii_N_embedding b). congruence.
Qed.

Lemma is_char_refl a : is_char a a = true.
Proof. by apply is_char_eq. Qed.

Lemma strip_prefix_Some p s r : strip_prefix p s = Some r ↔ s = p ++ r.
Proof.
  revert s. induction p as [|a p IH]; intros s; simpl.
  - split; congruence.
  - destruct s as [|b s]; [split; discriminate|].
    destruct (is_char a b) eqn:E.
    + apply is_char_eq in E as ->. rewrite IH. split; congruence.
    + split; [discriminate|]. intros [= -> _]. by rewrite is_char_refl in E.
Qed.

Lemma strip_prefix_app p r : strip_prefix p (p ++ r) = Some r.
Proof. by apply strip_prefix_Some. Qed.

Lemma strip_prefix_None p s r : strip_prefix p s = None → s ≠ p ++ r.
Proof. intros E ->. by rewrite strip_prefix_app in E. Qed.

Lemma contains_spec sub s :
  contains sub s = true ↔ ∃ pre post, s = pre ++ sub ++ post.
Proof.
  induction s as [|c s IH]; simpl.
  - destruct (strip_prefix sub []) as [l|] eqn:E.
    + apply strip_prefix_Some in E. split; [|done]. intros _. by exists [], l.
    + split; [discriminate|]. intros (pre & post & H).
      destruct pre; [|discriminate]. by apply strip_prefix_None with (r := post) in E.
  - destruct (strip_prefix sub (c :: s)) as [l|] eqn:E.
    + apply strip_prefix_Some in E. split; [|done]. intros _. by exists [], l.
    + rewrite IH. split.
      * intros (pre & post & ->). by exists (c :: pre), post.
      * intros (pre & post & H). destruct pre as [|c' pre].
        -- by apply strip_prefix_None with (r := post) in E.
        -- injection H as -> ->. by exists pre, post.
Qed.

Definition run (cls : ascii → bool) (t : str) : Prop :=
  t ≠ [] ∧ Forall (λ c, cls c = true) t.

Lemma many1_None {R} cls s (k : str → str → option R) :
  many1 cls s k = None →
  ∀ t r, s = t ++ r → run cls t → k t r = None.
Proof.
  revert k. induction s as [|c s IH]; intros k Hm t r Hs [Hne Hall].
  - destruct t; [done|discriminate].
  - destruct t as [|c' t]; [done|]. injection Hs as <- ->.
    simpl in Hm. inversion Hall as [|? ? Hc Hall']; subst. rewrite Hc in Hm.
    destruct (many1 cls (t ++ r) (λ t0 r0, k (c :: t0) r0)) eqn:E; [discriminate|].
    destruct t as [|c2 t]; [exact Hm|].
    apply (IH _ E (c2 :: t) r); [done|]. split; [done|exact Hall'].
Qed.

Lemma many1_greedy {R} cls s (k : str → str → option R) x :
  many1 cls s k = Some x →
  ∃ t r, s = t ++ r ∧ run cls t ∧ k t r = Some x ∧
    ∀ t' r', s = t' ++ r' → run cls t' → (length t < length t')%nat →
             k t' r' = None.
Proof.
  revert k. induction s as [|c s IH]; intros k Hm; [discriminate|].
  simpl in Hm. destruct (cls c) eqn:Hc; [|discriminate].
  destruct (many1 cls s (λ t0 r0, k (c :: t0) r0)) as [y|] eqn:E.
  - injection Hm as ->. apply IH in E as (t & r & -> & [Hne Hall] & Hk & Hmax).
    exists (c :: t), r. repeat split; [done|by constructor|done|].
    intros t' r' Hs [Hne' Hall'] Hlen. destruct t' as [|c' t']; [done|].
    injection Hs as <- Hs. inversion Hall'; subst.
    apply (Hmax t' r' Hs); [|simpl in Hlen; lia].
    split; [|done]. intros ->. simpl in Hlen. destruct t; [done|simpl in Hlen; lia].
  - exists [c], s. repeat split; [done|by repeat constructor|done|].
    intros t' r' Hs [Hne' Hall'] Hlen. destruct t' as [|c' t']; [done|].
    injection Hs as <- ->. inversion Hall'; subst.
    destruct t' as [|c2 t']; [simpl in Hlen; lia|].
    apply (many1_None _ _ _ E (c2 :: t') r'); [done|]. split; [done|assumption].
Qed.

Lemma many1_complete {R} cls t r (k : str → str → option R) :
  run cls t → is_Some (k t r) → is_Some (many1 cls (t ++ r) k).
Proof.
  intros Hrun Hk. destruct (many1 cls (t ++ r) k) eqn:E; [done|].
  rewrite (many1_None _ _ _ E t r eq_refl Hrun) in Hk. by destruct Hk.
Qed.

Lemma take_drop_while p s : s = take_while p s ++ drop_while p s.
Proof. induction s as [|c s IH]; simpl; [done|]. destruct (p c); simpl; congruence. Qed.

Lemma take_while_all p s : Forall (λ c, p c = true) (take_while p s).
Proof.
  induction s as [|c s IH]; simpl; [constructor|].
  destruct (p c) eqn:E; by constructor.
Qed.

Lemma drop_while_head p s c r : drop_while p s = c :: r → p c = false.
Proof.
  induction s as [|c' s IH]; simpl; [discriminate|].
  destruct (p c') eqn:E; [exact IH|]. by intros [= <- _].
Qed.

Lemma take_while_longest p t r :
  Forall (λ c, p c = true) t → (length t ≤ length (take_while p (t ++ r)))%nat.
Proof.
  induction 1 as [|c t Hc _ IH]; simpl; [lia|]. rewrite Hc. simpl. lia.
Qed.

Lemma drop_while_nil p s : drop_while p s = [] → Forall (λ c, p c = true) s.
Proof.
  induction s as [|c s IH]; simpl; [constructor|].
  destruct (p c) eqn:E; [|discriminate]. intros H. constructor; auto.
Qed.

(** [strip] leaves no blank at the end *)
Lemma strip_last line s c : strip line = s ++ [c] → is_space c = false.
Proof.
  unfold strip. intros H. apply (f_equal (λ l, rev l)) in H. simpl in H.
  rewrite rev_involutive, rev_app_distr in H. simpl in H.
  by apply drop_while_head in H.
Qed.

Lemma newline_is_space c : is_dot c = false → is_space c = true.
Proof.
  unfold is_dot. intros H. apply negb_false_iff, is_char_eq in H. by subst.
Qed.

Ltac step_many H t r Hrun Hmax :=
  apply many1_greedy in H as (t & r & -> & Hrun & H & Hmax).
Ltac step_lit H r :=
  let E := fresh "E" in
  match type of H with
  | match strip_prefix ?l ?s with _ => _ end = _ =>
      destruct (strip_prefix l s) as [r|] eqn:E; [|discriminate];
      apply strip_prefix_Some in E as ->
  end.

(** *** [key=([class]+)] patterns *)

Definition kv_pattern (key : str) (cls : ascii → bool) : list part :=
  [Plain (Lit key); Cap [Many1 cls]].

(** What [re.search(key=([class]+), s).group(1)] denotes: the longest run of
    class characters after the leftmost [key] that one follows; no value
    when no [key] is followed by a class character. *)
Definition field_value (key : str) (cls : ascii → bool) (s : str)
    (v : option str) : Prop :=
  match v with
  | Some v =>
      ∃ pre post,
        s = pre ++ key ++ v ++ post ∧ run cls v ∧
        (∀ c post', post = c :: post' → cls c = false) ∧
        (∀ pre' c post', s = pre' ++ key ++ c :: post' → cls c = true →
                         (length pre ≤ length pre')%nat)
  | None => ∀ pre c post, s = pre ++ key ++ c :: post → cls c = false
  end.

Lemma kv_match_Some key cls s caps :
  re_match (kv_pattern key cls) s = Some caps →
  ∃ v post, caps = [v] ∧ s = key ++ v ++ post ∧ run cls v ∧
            ∀ c post', post = c :: post' → cls c = false.
Proof.
  unfold re_match, kv_pattern. cbn [m_parts m_items]. intros H.
  step_lit H r1. step_many H v post Hv M. injection H as <-.
  exists v, post. rewrite !app_nil_r. repeat (split; [done|]).
  intros c post' ->. destruct (cls c) eqn:E; [|done].
  specialize (M (v ++ [c]) post'). rewrite <- app_assoc in M.
  discriminate M; [done| |rewrite length_app; simpl; lia].
  split; [by destruct v|]. apply Forall_app; split; [apply Hv|by repeat constructor].
Qed.

Lemma kv_match_None key cls s :
  re_match (kv_pattern key cls) s = None →
  ∀ c post, s = key ++ c :: post → cls c = false.
Proof.
  unfold re_match, kv_pattern. cbn [m_parts m_items]. intros H c post ->.
  rewrite strip_prefix_app in H. destruct (cls c) eqn:E; [|done].
  apply many1_None with (t := [c]) (r := post) in H; [discriminate H|done|].
  split; [done|by repeat constructor].
Qed.

Lemma re_search_kv key cls s :
  field_value key cls s (group1 (re_search (kv_pattern key cls) s)).
Proof.
  induction s as [|a s IH]; simpl.
  - destruct (re_match (kv_pattern key cls) []) as [caps|] eqn:E.
    + apply kv_match_Some in E as (v & post & -> & Hs & Hv & Hmax). simpl.
      exists [], post. repeat (split; [done|]). intros; simpl; lia.
    + simpl. intros pre c post Hs. destruct pre; [|discriminate].
      by apply (kv_match_None _ _ _ E c post).
  - destruct (re_match (kv_pattern key cls) (a :: s)) as [caps|] eqn:E.
    + apply kv_match_Some in E as (v & post & -> & Hs & Hv & Hmax). simpl.
      exists [], post. repeat (split; [done|]). intros; simpl; lia.
    + destruct (group1 (re_search (kv_pattern key cls) s)) as [v|]; simpl in *.
      * destruct IH as (pre & post & -> & Hv & Hmax & Hleft).
        exists (a :: pre), post. repeat (split; [done|]).
        intros pre' c post' Hs Hc. destruct pre' as [|a' pre'].
        -- rewrite (kv_match_None _ _ _ E c post' Hs) in Hc. done.
        -- injection Hs as -> Hs. specialize (Hleft _ _ _ Hs Hc). simpl. lia.
      * intros pre c post Hs. destruct pre as [|a' pre].
        -- by apply (kv_match_None _ _ _ E c post).
        -- injection Hs as -> Hs. by apply (IH pre c post).
Qed.

Lemma run_unique cls (v1 v2 post1 post2 : str) :
  v1 ++ post1 = v2 ++ post2 →
  Forall (λ c, cls c = true) v1 → Forall (λ c, cls c = true) v2 →
  (∀ c p, post1 = c :: p → cls c = false) →
  (∀ c p, post2 = c :: p → cls c = false) →
  v1 = v2.
Proof.
  revert v2. induction v1 as [|a v1 IH]; intros v2 Heq H1 H2 Hp1 Hp2.
  - destruct v2 as [|b v2]; [done|]. simpl in Heq.
    inversion H2 as [|? ? Hb _]; subst. by rewrite (Hp1 b _ eq_refl) in Hb.
  - destruct v2 as [|b v2]; simpl in Heq.
    + inversion H1 as [|? ? Ha _]; subst. by rewrite (Hp2 a _ eq_refl) in Ha.
    + injection Heq as -> Heq. inversion H1; inversion H2; subst.
      f_equal. by apply IH.
Qed.

(** a text has one value for a key, so [field_value] says what the search
    answers *)
Lemma field_value_unique key cls s v1 v2 :
  field_value key cls s v1 → field_value key cls s v2 → v1 = v2.
Proof.
  assert (∀ v, field_value key cls s (Some v) → field_value key cls s None → False) as Hno.
  { intros v (pre & post & Hs & [Hne Hall] & _) Hnone. destruct v as [|c v]; [done|].
    inversion Hall as [|? ? Hc _]; subst. by rewrite (Hnone pre c (v ++ post) eq_refl) in Hc. }
  destruct v1 as [v1|], v2 as [v2|]; [|by intros ? ?; exfalso; eauto..|done].
  intros (pre1 & post1 & Hs1 & [Hne1 Hall1] & Hmax1 & Hleft1)
         (pre2 & post2 & Hs2 & [Hne2 Hall2] & Hmax2 & Hleft2).
  assert (length pre1 = length pre2) as Hlen.
  { destruct v1 as [|c1 v1]; [done|]. destruct v2 as [|c2 v2]; [done|].
    inversion Hall1 as [|? ? Hc1 _]; inversion Hall2 as [|? ? Hc2 _]; subst.
    pose proof (Hleft1 pre2 c2 (v2 ++ post2) Hs2 Hc2).
    pose proof (Hleft2 pre1 c1 (v1 ++ post1) eq_refl Hc1). lia. }
  rewrite Hs1 in Hs2. apply app_inj_1 in Hs2 as [_ Hs2]; [|done].
  apply app_inv_head in Hs2. f_equal. by eapply run_unique.
Qed.

End TextFacts.

(** ** The log parser *)

Module ParserFacts.
Import Text Parser TextFacts.

(** the line grammar of [parse_line], spelled out *)
Definition line_shape (s stamp level tail rest : str) : Prop :=
  ∃ ws1 ws2 ws3 ws4,
    s = stamp ++ lit "Z" ++ ws1 ++ lit "-" ++ ws2 ++ level ++ ws3 ++ lit "-"
          ++ ws4 ++ tail ++ rest ∧
    run is_stamp stamp ∧ run is_space ws1 ∧ run is_space ws2 ∧
    run is_word level ∧ run is_space ws3 ∧ run is_space ws4 ∧ run is_dot tail.

Lemma re_match_pattern_sound s caps :
  re_match pattern s = Some caps →
  ∃ stamp level tail rest,
    caps = [stamp ++ lit "Z"; level; tail] ∧
    line_shape s stamp level tail rest ∧
    (∀ c rest', rest = c :: rest' → is_dot c = false) ∧
    ((∀ s' c, s = s' ++ [c] → is_space c = false) →
     ∀ c tail', tail = c :: tail' → is_space c = false).
Proof.
  intros H. unfold re_match, pattern in H. cbn [m_parts m_items] in H.
  step_many H stamp r1 Hstamp M1. step_lit H r2.
  step_many H ws1 r3 Hws1 M2. step_lit H r4.
  step_many H ws2 r5 Hws2 M3.
  step_many H level r6 Hlevel M4.
  step_many H ws3 r7 Hws3 M5. step_lit H r8.
  step_many H ws4 r9 Hws4 M6.
  step_many H tl0 rest Htl0 M7.
  injection H as <-. rewrite !app_nil_r.
  exists stamp, level, tl0, rest. split; [done|]. split; [|split].
  - exists ws1, ws2, ws3, ws4.
    repeat (split; [assumption || reflexivity|]); assumption.
  - intros c rest' -> . destruct (is_dot c) eqn:E; [|done].
    specialize (M7 (tl0 ++ [c]) rest'). rewrite <- app_assoc in M7.
    discriminate M7; [done| |rewrite length_app; simpl; lia].
    destruct Htl0 as [? Hall]. split; [by destruct tl0|].
    apply Forall_app; split; [done|by repeat constructor].
  - intros Hend c tl' ->. destruct (is_space c) eqn:Hc; [|done]. exfalso.
    set (s8 := (c :: tl') ++ rest) in *.
    pose proof (take_drop_while is_space (ws4 ++ s8)) as Hsplit.
    destruct (drop_while is_space (ws4 ++ s8)) as [|d r] eqn:Hdrop.
    + apply drop_while_nil in Hdrop.
      destruct (exists_last (l := ws4 ++ s8)) as (s' & c' & Hl); [by destruct ws4|].
      rewrite Hl in Hdrop. apply Forall_app in Hdrop as [_ Hdrop].
      inversion Hdrop as [|? ? Hc' _]; subst.
      rewrite (Hend (stamp ++ lit "Z" ++ ws1 ++ lit "-" ++ ws2 ++ level ++ ws3 ++ lit "-" ++ s') c') in Hc'; [done|].
      rewrite Hl. by rewrite <- !app_assoc.
    + pose proof (drop_while_head _ _ _ _ Hdrop) as Hd.
      assert (is_dot d = true) as Hdot.
      { destruct (is_dot d) eqn:E; [done|]. apply newline_is_space in E. congruence. }
      assert (run is_space (take_while is_space (ws4 ++ s8))) as Hrun.
      { split; [|apply take_while_all].
        intros E. pose proof (take_while_longest is_space ws4 s8 (proj2 Hws4)) as Hlen.
        rewrite E in Hlen. destruct Hws4 as [Hne _]. destruct ws4; [done|simpl in Hlen; lia]. }
      assert (length ws4 < length (take_while is_space (ws4 ++ s8)))%nat as Hlt.
      { pose proof (take_while_longest is_space (ws4 ++ [c]) (tl' ++ rest)) as Hlen.
        rewrite <- app_assoc in Hlen. simpl in Hlen. unfold s8. simpl.
        rewrite length_app in Hlen. simpl in Hlen.
        assert (Forall (λ c0, is_space c0 = true) (ws4 ++ [c])) as HF.
        { apply Forall_app; split; [apply Hws4|by repeat constructor]. }
        specialize (Hlen HF). lia. }
      specialize (M6 _ (d :: r) Hsplit Hrun Hlt). cbv beta in M6.
      apply many1_None with (t := [d]) (r := r) in M6; [discriminate M6|done|].
      split; [done|by repeat constructor].
Qed.

Lemma re_match_pattern_complete s stamp level tl0 rest :
  line_shape s stamp level tl0 rest → is_Some (re_match pattern s).
Proof.
  intros (ws1 & ws2 & ws3 & ws4 & -> & H1 & H2 & H3 & H4 & H5 & H6 & H7).
  unfold re_match, pattern. cbn [m_parts m_items].
  apply many1_complete; [done|]. rewrite strip_prefix_app.
  apply many1_complete; [done|]. rewrite strip_prefix_app.
  apply many1_complete; [done|].
  apply many1_complete; [done|].
  apply many1_complete; [done|]. rewrite strip_prefix_app.
  apply many1_complete; [done|].
  apply many1_complete; [done|]. done.
Qed.

Definition line_grammar (s : str) : Prop :=
  ∃ stamp level tl0 rest, line_shape s stamp level tl0 rest.

(** C9, as amended: [parse_line] answers [None] exactly for the lines
    that, once stripped, do not start with the top-level grammar (stamp
    ending in Z, blanks-dash-blanks, level, blanks-dash-blanks, tail).
    For every other line it answers a record in which a sub-field is not
    all that follows its key but what the pattern of the key takes of
    it: the longest run of letters after the leftmost [Component=] that
    a letter follows, of capitals and underscores after the leftmost
    [Code=] that one follows, of characters other than the hyphen
    (stripped) after the leftmost [Message=] that one follows; and the
    default ("Unknown", absent, the whole tail) when no occurrence of the
    key is followed by such a character, the key being there or not.  The
    tail runs from the first non-blank character after the second
    separator to the end of that physical line.  The sample line of the
    specification yields component "LogIngestor", error code "E_DB_FAIL"
    and level "ERROR". *)
Theorem parse_line_spec :
  (∀ line z c a v,
     parse_line line z c a v = None ↔ ¬ line_grammar (strip line))
  ∧ (∀ line z c a v r,
       parse_line line z c a v = Some r →
       ∃ stamp level tl0 rest,
         line_shape (strip line) stamp level tl0 rest ∧
         (∀ x tl', tl0 = x :: tl' → is_space x = false) ∧
         (∀ x rest', rest = x :: rest' → is_dot x = false) ∧
         timestamp r = stamp ++ lit "Z" ∧
         log_level r = level ∧
         (∃ f, field_value (lit "Component=") is_alpha tl0 f ∧
               component r = default (lit "Unknown") f) ∧
         field_value (lit "Code=") is_code tl0 (error_code r) ∧
         (∃ f, field_value (lit "Message=") is_not_dash tl0 f ∧
               message r = match f with Some m => strip m | None => tl0 end) ∧
         zone r = z ∧ client r = c ∧ app r = a ∧ version r = v ∧
         raw_line r = strip line)
  ∧ (∀ z c a v,
       ∃ r, parse_line sample_line z c a v = Some r ∧
            component r = lit "LogIngestor" ∧
            error_code r = Some (lit "E_DB_FAIL") ∧
            log_level r = lit "ERROR").
Proof.
  split; [|split].
  - intros line z c a v. unfold parse_line.
    destruct (re_match pattern (strip line)) as [caps|] eqn:E.
    + apply re_match_pattern_sound in E as (stamp & level & tl0 & rest & -> & Hs & _).
      split; [discriminate|]. intros Hn. exfalso. apply Hn. by exists stamp, level, tl0, rest.
    + split; [|done]. intros _ (stamp & level & tl0 & rest & Hs).
      apply re_match_pattern_complete in Hs as [x Hx]. congruence.
  - intros line z c a v r. unfold parse_line.
    destruct (re_match pattern (strip line)) as [caps|] eqn:E; [|discriminate].
    apply re_match_pattern_sound in E as (stamp & level & tl0 & rest & -> & Hs & Hrest & Htl).
    intros [= <-]. simpl. exists stamp, level, tl0, rest.
    split; [done|]. split.
    { apply Htl. intros s' x Hl. by apply (strip_last line s'). }
    split; [done|]. split; [done|]. split; [done|]. split.
    { eexists. split; [apply re_search_kv|done]. }
    split; [apply re_search_kv|]. split; [|done].
    eexists. split; [apply (re_search_kv (lit "Message=") is_not_dash)|done].
  - intros z c a v. eexists. split; [vm_compute; reflexivity|].
    by vm_compute.
Qed.

(** Blanks and word characters beyond U+007F: a no-break space before
    the stamp is stripped, NEL and a no-break space separate, and a
    capital O with diaeresis belongs to the level. *)
Lemma blanks_and_letters_beyond_ascii :
  ∃ r, parse_line
         ([ascii_of_N 160] ++ lit "2025-01-01T00:00:00Z" ++ [ascii_of_N 133]
            ++ lit "-" ++ [ascii_of_N 160] ++ lit "ERR" ++ [ascii_of_N 214]
            ++ lit "R - x")
         [] [] [] [] = Some r ∧
       timestamp r = lit "2025-01-01T00:00:00Z" ∧
       log_level r = lit "ERR" ++ [ascii_of_N 214] ++ lit "R" ∧
       message r = lit "x".
Proof. eexists. split; [vm_compute; reflexivity|]. by vm_compute. Qed.

(** The line of the second scenario of the specification has [Code=E1],
    and the error code of its record is [E]; in the other line all three
    keys are there, with values the patterns do not take, and the record
    has the three defaults. *)
Lemma sub_field_values_are_cut :
  (∃ r, parse_line
          (lit "2025-01-01T00:00:00Z - ERROR - Component=DB - Code=E1 - Message=timeout occurred")
          [] [] [] [] = Some r ∧
        error_code r = Some (lit "E")) ∧
  (∃ r, parse_line
          (lit "2025-01-01T00:00:00Z - ERROR - Component=9 - Code=e_low - Message=-")
          [] [] [] [] = Some r ∧
        component r = lit "Unknown" ∧ error_code r = None ∧
        message r = lit "Component=9 - Code=e_low - Message=-").
Proof.
  split; (eexists; split; [vm_compute; reflexivity|]); by vm_compute.
Qed.

End ParserFacts.

(** ** The retrieval engine *)

Module EngineFacts.
Import Text RagEngine TextFacts.

(** *** The exact-match step *)

Lemma collect_filter {A} (p : A → bool) (l acc : list A) :
  fold_left (λ matches x, if p x then matches ++ [x] else matches) l acc
  = acc ++ List.filter p l.
Proof.
  revert acc. induction l as [|x l IH]; intros acc; simpl.
  - by rewrite app_nil_r.
  - rewrite IH. destruct (p x); [|done]. by rewrite <- app_assoc.
Qed.

Definition exact_hit (query line : str) : bool :=
  contains (lower query) (lower line) && contains (lit "ERROR") line.

Lemma find_exact_matches_filter query log_text :
  find_exact_matches query log_text = List.filter (exact_hit query) (lines log_text).
Proof. unfold find_exact_matches. by rewrite collect_filter. Qed.

(** *** Case-insensitive containment, said without [lower]

    Two characters differ at most in case when they are the same
    character, or one is a capital ([A] to [Z], or an accented capital)
    and the other its small letter, which lies 32 code points further. *)
Definition small_of (a b : ascii) : Prop :=
  ((65 ≤ code a ≤ 90) ∨ (192 ≤ code a ≤ 214) ∨ (216 ≤ code a ≤ 222))%N ∧
  code b = (code a + 32)%N.

Definition same_ignoring_case (a b : ascii) : Prop :=
  a = b ∨ small_of a b ∨ small_of b a.

(** [sub] is a case-insensitive substring of [s]: some stretch of [s]
    is [sub] character by character, case apart *)
Definition occurs_ignoring_case (sub s : str) : Prop :=
  ∃ pre mid post, s = pre ++ mid ++ post ∧ Forall2 same_ignoring_case mid sub.

Lemma code_bound c : (code c < 256)%N.
Proof. apply N_ascii_bounded. Qed.

Lemma code_inj a b : code a = code b → a = b.
Proof.
  intros H. rewrite <- (ascii_N_embedding a), <- (ascii_N_embedding b).
  unfold code in H. by rewrite H.
Qed.

Lemma is_capital_spec c :
  is_capital c = true ↔
  ((65 ≤ code c ≤ 90) ∨ (192 ≤ code c ≤ 214) ∨ (216 ≤ code c ≤ 222))%N.
Proof.
  unfold is_capital, is_upper, between.
  rewrite !orb_true_iff, !andb_true_iff, !N.leb_le. tauto.
Qed.

Lemma code_lower_char c :
  code (lower_char c) = if is_capital c then (code c + 32)%N else code c.
Proof.
  unfold lower_char. destruct (is_capital c) eqn:E; [|done].
  apply is_capital_spec in E. unfold code at 1. apply N_ascii_embedding.
  pose proof (code_bound c). lia.
Qed.

(** [lower] identifies exactly the characters that differ at most in case *)
Lemma lower_char_same a b : lower_char a = lower_char b ↔ same_ignoring_case a b.
Proof.
  unfold same_ignoring_case, small_of. split.
  - intros H%(f_equal code). rewrite !code_lower_char in H.
    destruct (is_capital a) eqn:Ha, (is_capital b) eqn:Hb.
    + left. apply code_inj. lia.
    + apply is_capital_spec in Ha. right. left. split; [done|]. by rewrite H.
    + apply is_capital_spec in Hb. right. right. split; [done|]. by rewrite <- H.
    + left. by apply code_inj.
  - intros [->|[[Hc Hb]|[Hc Ha]]]; [done| |]; apply code_inj;
      rewrite !code_lower_char.
    + pose proof (proj2 (is_capital_spec a) Hc) as ->.
      destruct (is_capital b) eqn:E; [|done]. apply is_capital_spec in E. lia.
    + pose proof (proj2 (is_capital_spec b) Hc) as ->.
      destruct (is_capital a) eqn:E; [|done]. apply is_capital_spec in E. lia.
Qed.

Lemma lower_eq_same (mid sub : str) :
  lower mid = lower sub ↔ Forall2 same_ignoring_case mid sub.
Proof.
  revert sub. induction mid as [|a mid IH]; intros [|b sub]; simpl.
  - split; [constructor|done].
  - split; [discriminate|inversion 1].
  - split; [discriminate|inversion 1].
  - split.
    + intros [= Hab Hrest]. constructor; [by apply lower_char_same|by apply IH].
    + inversion 1 as [|? ? ? ? Hab Hrest]; subst. f_equal; [by apply lower_char_same|].
      by apply IH.
Qed.

(** [query.lower() in line.lower()] *)
Lemma contains_lower query line :
  contains (lower query) (lower line) = true ↔ occurs_ignoring_case query line.
Proof.
  rewrite contains_spec. unfold occurs_ignoring_case, lower. split.
  - intros (pre & post & H). apply fmap_app_inv in H as (l1 & l23 & -> & H & ->).
    symmetry in H. apply fmap_app_inv in H as (l2 & l3 & H2 & -> & ->).
    exists l1, l2, l3. split; [done|]. by apply lower_eq_same.
  - intros (pre & mid & post & -> & H%lower_eq_same).
    exists (map lower_char pre), (map lower_char post).
    rewrite !map_app. unfold lower in H. by rewrite H.
Qed.

Lemma exact_hit_spec query line :
  exact_hit query line = true ↔
  occurs_ignoring_case query line ∧
  (∃ pre post, line = pre ++ lit "ERROR" ++ post).
Proof. unfold exact_hit. by rewrite andb_true_iff, contains_lower, contains_spec. Qed.

Section Engine.
Context {solution : Type}.
Variable py_list_set : list str → list str.
Variable get_relevant_solutions : list str → list solution.
Variable _generate_simple_rca : str → log_data → list str → list solution → str.


End Engine.

Definition scenario_text : str :=
  lit "2025-01-01T00:00:00Z - ERROR - Component=DB - Code=E1 - Message=timeout occurred" ++ lit (String "010" "") ++ lit "2025-01-01T00:00:01Z - INFO - ok".


End EngineFacts.

(** ** The flexible vector store *)

Module FlexibleFacts.
Import Py Lib Flexible Reference Scenario.
Local Open Scope Z_scope.

Section SortedFacts.
Context {A K : Type} (key : A → K) (lt : K → K → bool).

Lemma insert_desc_perm x l : insert_desc key lt x l ≡ₚ x :: l.
Proof.
  induction l as [|y l IH]; simpl; [done|].
  destruct (lt (key x) (key y)); [|done]. rewrite IH. apply Permutation_swap.
Qed.

Lemma sorted_desc_perm l : sorted_desc key lt l ≡ₚ l.
Proof.
  induction l as [|x l IH]; simpl; [done|].
  rewrite insert_desc_perm. by constructor.
Qed.

Lemma sorted_desc_length l : length (sorted_desc key lt l) = length l.
Proof. by rewrite sorted_desc_perm. Qed.

Lemma sorted_desc_In x l : In x (sorted_desc key lt l) ↔ In x l.
Proof. rewrite <- !list_elem_of_In. by rewrite sorted_desc_perm. Qed.

(** a list that already descends is returned as it is *)
Lemma sorted_desc_id l :
  StronglySorted (λ a b, lt (key a) (key b) = false) l → sorted_desc key lt l = l.
Proof.
  induction 1 as [|x l Hl IH Hx]; simpl; [done|]. rewrite IH.
  destruct l as [|y l']; simpl; [done|].
  inversion Hx as [|? ? Hy _]; subst. by rewrite Hy.
Qed.

End SortedFacts.

Section StoreFacts.
Context {N : Numeric} {L : Libraries}.

Lemma py_index_lookup {A} (l : list A) (i : nat) :
  py_index l (Z.of_nat i) = l !! i.
Proof.
  unfold py_index. destruct (0 <=? Z.of_nat i) eqn:E; [by rewrite Nat2Z.id|].
  apply Z.leb_gt in E. lia.
Qed.

Lemma py_index_In {A} (l : list A) i x : py_index l i = Some x → In x l.
Proof.
  unfold py_index. repeat case_match; try discriminate;
    intros Hl; apply list_elem_of_In; by eapply list_elem_of_lookup_2.
Qed.

Lemma py_index_is_Some {A} (l : list A) i :
  - Z.of_nat (length l) ≤ i < Z.of_nat (length l) → is_Some (py_index l i).
Proof.
  intros Hi. unfold py_index.
  destruct (0 <=? i) eqn:E1; [apply lookup_lt_is_Some; lia|].
  destruct (- Z.of_nat (length l) <=? i) eqn:E2; [apply lookup_lt_is_Some; lia|lia].
Qed.

(** what [format_loop] keeps *)
Definition kept (mds : list meta) (f : option meta) (p : num * meta) : Prop :=
  In p.2 mds ∧ (filter_active f = true → filter_matches f p.2 = true).

Lemma format_loop_kept mds f pairs acc res :
  format_loop mds f pairs acc = Ok res →
  Forall (kept mds f) acc → Forall (kept mds f) res.
Proof.
  revert acc. induction pairs as [|[score idx] pairs IH]; intros acc; simpl.
  - by intros [= <-].
  - destruct (idx <? Z.of_nat (length mds)); [|apply IH].
    destruct (py_index mds idx) as [m|] eqn:Hm; [|discriminate].
    destruct (filter_active f && negb (filter_matches f m)) eqn:Hf; [apply IH|].
    intros H Hacc. apply (IH _ H). apply Forall_app; split; [done|].
    repeat constructor; simpl; [by eapply py_index_In|].
    intros Ha. rewrite Ha in Hf. simpl in Hf. by apply negb_false_iff in Hf.
Qed.

Lemma format_loop_length mds f pairs acc res :
  format_loop mds f pairs acc = Ok res →
  (length res ≤ length acc + length pairs)%nat.
Proof.
  revert acc. induction pairs as [|[score idx] pairs IH]; intros acc; simpl.
  - intros [= <-]. lia.
  - destruct (idx <? Z.of_nat (length mds)); [|intros H; apply IH in H; lia].
    destruct (py_index mds idx) as [m|] eqn:Hm; [|discriminate].
    destruct (filter_active f && negb (filter_matches f m));
      intros H; apply IH in H; rewrite ?length_app in H; simpl in H; lia.
Qed.

Lemma format_loop_no_index_error mds f pairs acc :
  mds ≠ [] → Forall (λ p, -1 ≤ p.2) pairs →
  format_loop mds f pairs acc ≠ Raise IndexError.
Proof.
  intros Hne. revert acc. induction pairs as [|[score idx] pairs IH]; intros acc Hp; simpl.
  - done.
  - inversion Hp as [|? ? Hidx Hp']; subst. simpl in Hidx.
    destruct (idx <? Z.of_nat (length mds)) eqn:Hlt; [|by apply IH].
    destruct (py_index_is_Some mds idx) as [m ->].
    { apply Z.ltb_lt in Hlt. destruct mds; [done|]. simpl length in *. lia. }
    destruct (filter_active f && negb (filter_matches f m)); by apply IH.
Qed.

Lemma format_results_kept st scores indices f res :
  _format_results st scores indices f = Ok res → Forall (kept (metadata st) f) res.
Proof.
  unfold _format_results.
  destruct (format_loop _ _ _ _) as [r|] eqn:E; [|discriminate].
  intros [= <-]. apply format_loop_kept in E; [|constructor].
  rewrite Forall_forall in *. intros x Hx. apply E.
  apply list_elem_of_In. apply list_elem_of_In in Hx. by rewrite sorted_desc_perm in Hx.
Qed.

Lemma search_kept st query top_k f res :
  search st query top_k f = Ok res → Forall (kept (metadata st) f) res.
Proof.
  intros Hs.
  assert (res = [] ∨ ∃ scores indices, _format_results st scores indices f = Ok res)
    as [->|(scores & indices & Hf)]; [|constructor|by eapply format_results_kept].
  revert Hs.
  unfold search, _search_faiss, _search_annoy, _search_sklearn, _search_numpy.
  repeat case_match; try discriminate; eauto; intros [= <-]; by left.
Qed.

Lemma filter_matches_agree (fm m : meta) key v :
  filter_matches (Some fm) m = true → fm !! key = Some v → py_get m key = v.
Proof.
  unfold filter_matches. rewrite forallb_forall. intros H Hk.
  specialize (H (key, v)). simpl in H. apply bool_decide_eq_true in H; [done|].
  apply list_elem_of_In. by apply elem_of_map_to_list.
Qed.

(** What the stores assume of the positions a library hands back: faiss
    labels are positions or the filler -1, annoy and sklearn answer
    positions, [np.argsort] answers positions of its argument. *)
Class IndexContract : Prop := {
  faiss_labels xb q k ds ids :
    faiss_search xb q k = Some (ds, ids) → Forall (λ i, -1 ≤ i) ids;
  annoy_ids a q n ids ds :
    annoy_get_nns_by_vector a q n = Some (ids, ds) → Forall (λ i, 0 ≤ i) ids;
  sklearn_ids X q k ds ids :
    kneighbors X q k = Some (ds, ids) → Forall (λ i, 0 ≤ i) ids;
  argsort_range l : Forall (λ i, (i < length l)%nat) (np_argsort l)
}.

Lemma py_slice_from_drop {A} start (l : list A) :
  ∃ m, py_slice_from start l = drop m l.
Proof. unfold py_slice_from. destruct (start <? 0); eauto. Qed.

Lemma pick_ok sims idxs :
  Forall (λ i, (i < length sims)%nat) idxs →
  ∃ l, pick sims idxs = Ok l ∧ Forall2 (λ i s, sims !! i = Some s) idxs l.
Proof.
  induction 1 as [|i idxs Hi _ (l & Hl & Hall)]; simpl; [by exists []|].
  destruct (lookup_lt_is_Some_2 sims i Hi) as [s Hs]. rewrite Hs, Hl.
  exists (s :: l). split; [done|by constructor].
Qed.

Lemma format_results_no_index_error st scores indices f :
  metadata st ≠ [] → Forall (λ i, -1 ≤ i) indices →
  _format_results st scores indices f ≠ Raise IndexError.
Proof.
  intros Hne Hi. unfold _format_results.
  destruct (format_loop _ _ _ _) as [r|x] eqn:E; [done|].
  intros [= ->]. revert E. apply format_loop_no_index_error; [done|].
  rewrite Forall_forall in Hi. apply Forall_forall. intros [s i] Hin. simpl. apply Hi.
  by eapply elem_of_zip_r.
Qed.

Lemma Forall_ge_weaken (l : list Z) : Forall (λ i, 0 ≤ i) l → Forall (λ i, -1 ≤ i) l.
Proof. intros H. eapply Forall_impl; [exact H|]. intros; simpl in *; lia. Qed.

Lemma top_indices_range top_k `{!IndexContract} (sims : list num) :
  Forall (λ i, (i < length sims)%nat)
         (rev (py_slice_from (- top_k) (np_argsort sims))).
Proof.
  destruct (py_slice_from_drop (- top_k) (np_argsort sims)) as [m ->].
  apply Forall_forall. intros i Hi. apply (proj1 (list_elem_of_In _ _)) in Hi.
  apply in_rev in Hi. apply (proj2 (list_elem_of_In _ _)) in Hi.
  pose proof (argsort_range sims) as Hr. rewrite Forall_forall in Hr. apply Hr.
  by eapply subseteq_drop.
Qed.

Lemma search_no_index_error `{!IndexContract} st query top_k f :
  search st query top_k f ≠ Raise IndexError.
Proof.
  unfold search. destruct (index st) as [i|] eqn:Hi; [|done].
  destruct (metadata st) as [|m mds] eqn:Hm; [done|].
  assert (metadata st ≠ []) as Hne by (by rewrite Hm).
  assert (_search_numpy st (embed query) top_k f ≠ Raise IndexError) as Hnp.
  { unfold _search_numpy. rewrite Hi. destruct i; try done.
    destruct (pick_ok (map (cosine (embed query)) rows) _
                (top_indices_range top_k _)) as (l & -> & _).
    apply format_results_no_index_error; [done|].
    apply Forall_forall. intros z Hz. apply list_elem_of_fmap in Hz as (n & -> & _). lia. }
  destruct (backend st) as [[]|]; try exact Hnp;
    unfold _search_faiss, _search_annoy, _search_sklearn; rewrite Hi;
    destruct i; try done.
  - destruct (faiss_search _ _ _) as [[ds ids]|] eqn:E; [|done].
    apply format_results_no_index_error; [done|]. by eapply faiss_labels.
  - destruct (annoy_get_nns_by_vector _ _ _) as [[ids ds]|] eqn:E; [|done].
    apply format_results_no_index_error; [done|].
    apply Forall_ge_weaken. by eapply annoy_ids.
  - destruct (embeddings st); [|done].
    destruct (kneighbors _ _ _) as [[ds ids]|] eqn:E; [|done].
    apply format_results_no_index_error; [done|].
    apply Forall_ge_weaken. by eapply sklearn_ids.
Qed.

End StoreFacts.

Section Ranking.
Context {N : Numeric} {L : Libraries}.

(** [i] may stand before [j] in a stable ascending order of [sims] *)
Definition asc_ok (sims : list num) (i j : nat) : bool :=
  match sims !! i, sims !! j with
  | Some si, Some sj => negb (nltb sj si) && (nltb si sj || (i <? j)%nat)
  | _, _ => false
  end.

Fixpoint pairwise {A} (r : A → A → bool) (l : list A) : bool :=
  match l with
  | [] => true
  | x :: l' => forallb (r x) l' && pairwise r l'
  end.

(** [order] lists every position of [sims] once, by ascending value, equal
    values by ascending position *)
Definition stable_argsort (sims : list num) (order : list nat) : bool :=
  (length order =? length sims)%nat
  && forallb (λ i, (i <? length sims)%nat) order
  && pairwise (asc_ok sims) order.

(** [i] is ranked before [j]: its similarity is not smaller, and when it is
    not greater either, [i] was inserted after [j] *)
Definition ranked_before (sims : list num) (i j : nat) : Prop :=
  ∃ si sj, sims !! i = Some si ∧ sims !! j = Some sj ∧
           nltb si sj = false ∧ (nltb sj si = true ∨ (j < i)%nat).

Lemma asc_ok_ranked sims i j : asc_ok sims i j = true → ranked_before sims j i.
Proof.
  unfold asc_ok, ranked_before.
  destruct (sims !! i) as [si|], (sims !! j) as [sj|]; try discriminate.
  rewrite andb_true_iff, orb_true_iff, negb_true_iff, Nat.ltb_lt.
  intros [H1 H2]. by exists sj, si.
Qed.

Lemma pairwise_sorted {A} (r : A → A → bool) l :
  pairwise r l = true → StronglySorted (λ x y, r x y = true) l.
Proof.
  induction l as [|x l IH]; simpl; [constructor|].
  rewrite andb_true_iff, forallb_forall. intros [Hx Hl].
  constructor; [by apply IH|]. rewrite Forall_forall. intros y Hy.
  apply Hx. by apply list_elem_of_In.
Qed.

Lemma sorted_snoc {A} (R : A → A → Prop) l x :
  StronglySorted R l → Forall (λ y, R y x) l → StronglySorted R (l ++ [x]).
Proof.
  induction 1 as [|y l Hl IH Hy]; simpl; intros Hx.
  - by repeat constructor.
  - inversion Hx; subst. constructor; [by apply IH|].
    apply Forall_app; split; [done|by repeat constructor].
Qed.

Lemma sorted_rev {A} (R : A → A → Prop) l :
  StronglySorted R l → StronglySorted (λ x y, R y x) (rev l).
Proof.
  induction 1 as [|x l Hl IH Hx]; simpl; [constructor|].
  apply sorted_snoc; [done|]. rewrite Forall_forall in *. intros y Hy. apply Hx.
  apply (proj1 (list_elem_of_In _ _)) in Hy. apply in_rev in Hy.
  by apply list_elem_of_In.
Qed.

Lemma sorted_drop {A} (R : A → A → Prop) m l :
  StronglySorted R l → StronglySorted R (drop m l).
Proof.
  intros H. rewrite <- (take_drop m l) in H. by apply StronglySorted_app_1_r in H.
Qed.

Lemma sorted_sublist {A} (R : A → A → Prop) l1 l2 :
  sublist l1 l2 → StronglySorted R l2 → StronglySorted R l1.
Proof.
  induction 1 as [|x l1 l2 Hs IH|x l1 l2 Hs IH]; intros H2; [done| |].
  - inversion H2 as [|? ? Hl Hx]; subst. constructor; [by apply IH|].
    rewrite Forall_forall in *. intros y Hy. apply Hx. by eapply elem_of_sublist.
  - inversion H2; subst. by apply IH.
Qed.

Lemma sorted_Forall2 {A B} (P : A → B → Prop) (R : A → A → Prop) (R' : B → B → Prop) l l' :
  (∀ i j p q, P i p → P j q → R i j → R' p q) →
  Forall2 P l l' → StronglySorted R l → StronglySorted R' l'.
Proof.
  intros HR. induction 1 as [|i p l l' Hip Hl IH]; intros Hs; [constructor|].
  inversion Hs as [|? ? Hs' Hi]; subst. constructor; [by apply IH|].
  rewrite Forall_forall in Hi. apply Forall_forall. intros q Hq.
  apply list_elem_of_lookup in Hq as [n Hn].
  destruct (Forall2_lookup_r _ _ _ _ _ Hl Hn) as (j & Hj & Hjq).
  eapply HR; [done|done|]. apply Hi. by eapply list_elem_of_lookup_2.
Qed.


Lemma format_loop_positions (sims : list num) (mds : list meta) f T ts acc :
  Forall2 (λ i s, sims !! i = Some s) T ts →
  Forall (λ i, (i < length mds)%nat) T →
  ∃ idxs res,
    sublist idxs T ∧
    format_loop mds f (zip ts (map Z.of_nat T)) acc = Ok (acc ++ res) ∧
    Forall2 (λ i p, sims !! i = Some p.1 ∧ mds !! i = Some p.2) idxs res ∧
    (filter_active f = false → idxs = T).
Proof.
  intros HT. revert acc. induction HT as [|i s T ts His HT IH]; intros acc Hr.
  - exists [], []. simpl. rewrite app_nil_r. by repeat split.
  - inversion Hr as [|? ? Hi Hr']; subst. simpl.
    assert ((Z.of_nat i <? Z.of_nat (length mds)) = true) as -> by (apply Z.ltb_lt; lia).
    rewrite py_index_lookup. destruct (lookup_lt_is_Some_2 mds i Hi) as [m Hm]. rewrite Hm.
    destruct (filter_active f && negb (filter_matches f m)) eqn:Hf.
    + destruct (IH acc Hr') as (idxs & res & Hsub & Hloop & Hall & Hfull).
      exists idxs, res. split; [by constructor|]. split; [done|]. split; [done|].
      intros Hoff. rewrite Hoff in Hf. discriminate.
    + destruct (IH (acc ++ [(s, m)]) Hr') as (idxs & res & Hsub & Hloop & Hall & Hfull).
      exists (i :: idxs), ((s, m) :: res). split; [by constructor|].
      split; [by rewrite Hloop, <- app_assoc|]. split; [by constructor|].
      intros Hoff. by rewrite Hfull.
Qed.


(** the numpy branch of [search], for a store whose two sequences are
    parallel *)
Record numpy_store (st : store) (rows : list (list num)) : Prop := {
  ns_index : index st = Some (Ndarray rows);
  ns_backend : backend st = Some Numpy;
  ns_parallel : length (metadata st) = length rows;
  ns_nonempty : rows ≠ []
}.

Lemma search_numpy_store st rows query top_k f :
  numpy_store st rows →
  search st query top_k f = _search_numpy st (embed query) top_k f.
Proof.
  intros [Hi Hb Hp Hn]. unfold search. rewrite Hi, Hb.
  destruct (metadata st); [|done]. destruct rows; [done|discriminate].
Qed.

Lemma numpy_candidates st rows query top_k f m :
  numpy_store st rows →
  let sims := map (cosine (embed query)) rows in
  Forall (λ i, (i < length sims)%nat) (drop m (np_argsort sims)) →
  py_slice_from (- top_k) (np_argsort sims) = drop m (np_argsort sims) →
  ∃ idxs res,
    sublist idxs (rev (drop m (np_argsort sims))) ∧
    search st query top_k f = Ok (sorted_desc fst nltb res) ∧
    Forall2 (λ i p, sims !! i = Some p.1 ∧ metadata st !! i = Some p.2) idxs res ∧
    (filter_active f = false → idxs = rev (drop m (np_argsort sims))).
Proof.
  intros Hst sims Hr Hslice. rewrite (search_numpy_store st rows); [|done].
  unfold _search_numpy. rewrite (ns_index _ _ Hst). fold sims. rewrite Hslice.
  assert (Forall (λ i, (i < length sims)%nat) (rev (drop m (np_argsort sims)))) as Hr'.
  { rewrite Forall_forall in Hr. apply Forall_forall. intros i Hi. apply Hr.
    apply (proj1 (list_elem_of_In _ _)) in Hi. apply in_rev in Hi.
    by apply list_elem_of_In. }
  destruct (pick_ok sims _ Hr') as (ts & -> & Hts).
  destruct (format_loop_positions sims (metadata st) f _ ts [] Hts)
    as (idxs & res & Hsub & Hloop & Hall & Hfull).
  { eapply Forall_impl; [exact Hr'|]. simpl. intros i Hi.
    rewrite (ns_parallel _ _ Hst). unfold sims in Hi. by rewrite length_map in Hi. }
  exists idxs, res. unfold _format_results. rewrite Hloop. simpl. done.
Qed.


Lemma sorted_impl {A} (R R' : A → A → Prop) l :
  (∀ x y, R x y → R' x y) → StronglySorted R l → StronglySorted R' l.
Proof.
  intros HR. induction 1 as [|x l Hl IH Hx]; constructor; [done|].
  eapply Forall_impl; [exact Hx|]. auto.
Qed.

Lemma stable_argsort_facts sims order :
  stable_argsort sims order = true →
  length order = length sims ∧
  Forall (λ i, (i < length sims)%nat) order ∧
  StronglySorted (λ i j, ranked_before sims j i) order.
Proof.
  unfold stable_argsort. rewrite !andb_true_iff, Nat.eqb_eq, forallb_forall.
  intros [[Hlen Hrange] Hpairs]. split; [done|]. split.
  - apply Forall_forall. intros i Hi. apply Nat.ltb_lt, Hrange. by apply list_elem_of_In.
  - apply pairwise_sorted in Hpairs.
    eapply sorted_impl; [|exact Hpairs]. intros i j. apply asc_ok_ranked.
Qed.

Lemma cosine_zero_norm q doc :
  neqb (np_norm q) num0 = true ∨ neqb (np_norm doc) num0 = true →
  cosine q doc = num0.
Proof. unfold cosine. intros [-> | ->]; [done|by rewrite orb_true_r]. Qed.

Lemma cosine_nonzero_norm q doc :
  neqb (np_norm q) num0 = false → neqb (np_norm doc) num0 = false →
  cosine q doc = ndiv (np_dot q doc) (nmul (np_norm q) (np_norm doc)).
Proof. unfold cosine. by intros -> ->. Qed.

(** C6, as amended: under the numpy backend the scores are the cosine of
    the query with each stored row, 0 when either norm is 0; the results
    come in descending order of similarity, and of two documents with equal
    similarity the one inserted later comes first, since the ascending
    [argsort] is read backwards (here for an [argsort] that is stable on
    the similarities at hand, as numpy's is on short arrays). *)
Theorem numpy_ranking st rows query top_k f :
  numpy_store st rows →
  let q := embed query in
  let sims := map (cosine q) rows in
  stable_argsort sims (np_argsort sims) = true →
  (∀ doc, neqb (np_norm q) num0 = true ∨ neqb (np_norm doc) num0 = true →
          cosine q doc = num0) ∧
  (∀ doc, neqb (np_norm q) num0 = false → neqb (np_norm doc) num0 = false →
          cosine q doc = ndiv (np_dot q doc) (nmul (np_norm q) (np_norm doc))) ∧
  ∃ idxs res,
    search st query top_k f = Ok res ∧
    Forall2 (λ i p, ∃ doc, rows !! i = Some doc ∧ p.1 = cosine q doc ∧
                           metadata st !! i = Some p.2) idxs res ∧
    StronglySorted (ranked_before sims) idxs ∧
    (filter_active f = false → 0 < top_k →
     Z.of_nat (length res) = Z.min top_k (Z.of_nat (length rows))).
Proof.
  intros Hst q sims Hsort.
  split; [apply cosine_zero_norm|]. split; [apply cosine_nonzero_norm|].
  apply stable_argsort_facts in Hsort as (Hlen & Hrange & Hsorted).
  destruct (py_slice_from_drop (- top_k) (np_argsort sims)) as [m Hm].
  destruct (numpy_candidates st rows query top_k f m Hst) as (idxs & res & Hsub & Hs & Hall & Hfull).
  { fold q sims. rewrite Forall_forall in Hrange. apply Forall_forall.
    intros i Hi. apply Hrange. by eapply subseteq_drop. }
  { exact Hm. }
  fold q sims in Hsub, Hs, Hall, Hfull.
  assert (StronglySorted (ranked_before sims) idxs) as Hrank.
  { eapply sorted_sublist; [exact Hsub|].
    apply (sorted_rev (λ i j, ranked_before sims j i)). by apply sorted_drop. }
  assert (sorted_desc fst nltb res = res) as Hid.
  { apply sorted_desc_id.
    eapply (sorted_Forall2 _ (ranked_before sims)); [|exact Hall|exact Hrank].
    intros i j p p' [Hi _] [Hj _] (si & sj & Hsi & Hsj & Hlt & _). congruence. }
  rewrite Hid in Hs. exists idxs, res. split; [done|]. split; [|split; [done|]].
  - eapply Forall2_impl; [exact Hall|]. intros i p [Hi Hmd]. unfold sims in Hi.
    rewrite list_lookup_fmap in Hi. destruct (rows !! i) as [doc|]; [|discriminate].
    injection Hi as Hi. by exists doc.
  - intros Hoff Hk. rewrite <- (Forall2_length _ _ _ Hall), (Hfull Hoff), length_rev.
    rewrite <- Hm. unfold py_slice_from.
    assert ((- top_k <? 0) = true) as -> by (apply Z.ltb_lt; lia).
    rewrite length_drop, Hlen. unfold sims. rewrite length_map. lia.
Qed.

(** C7: at [top_k = 0] the numpy backend returns every document of the
    store, because [argsort(...)[-0:]] is the whole array. *)
Theorem numpy_top_k_zero st rows query :
  numpy_store st rows →
  let sims := map (cosine (embed query)) rows in
  length (np_argsort sims) = length sims →
  Forall (λ i, (i < length sims)%nat) (np_argsort sims) →
  size st = Ok (length rows) ∧
  ∃ res, search st query 0 None = Ok res ∧ length res = length rows.
Proof.
  intros Hst sims Hlen Hrange. split.
  { unfold size. by rewrite (ns_backend _ _ Hst), (ns_index _ _ Hst). }
  destruct (numpy_candidates st rows query 0 None 0%nat Hst) as (idxs & res & Hsub & Hs & Hall & Hfull);
    [exact Hrange|reflexivity|].
  fold sims in Hs, Hall, Hfull. exists (sorted_desc fst nltb res). split; [done|].
  rewrite sorted_desc_length, <- (Forall2_length _ _ _ Hall), (Hfull eq_refl).
  rewrite length_rev, drop_0, Hlen. unfold sims. apply length_map.
Qed.

(** X20. For a positive [top_k] the numpy branch keeps to the bound: it
    returns at most [min(top_k, size)] results, when [np.argsort] returns
    a position of the array for each of its entries. *)
Lemma numpy_bound_positive st rows query top_k f res :
  numpy_store st rows →
  let sims := map (cosine (embed query)) rows in
  length (np_argsort sims) = length sims →
  Forall (λ i, (i < length sims)%nat) (np_argsort sims) →
  0 < top_k →
  search st query top_k f = Ok res →
  Z.of_nat (length res) ≤ Z.min top_k (Z.of_nat (length rows)).
Proof.
  intros Hst sims Hlen Hrange Hk Hs.
  set (m := Z.to_nat (Z.max 0 (Z.of_nat (length (np_argsort sims)) + - top_k))).
  destruct (numpy_candidates st rows query top_k f m Hst)
    as (idxs & res' & Hsub & Hs' & Hall & _).
  { fold sims. rewrite Forall_forall in Hrange. apply Forall_forall.
    intros i Hi. apply Hrange. by eapply subseteq_drop. }
  { fold sims. unfold py_slice_from.
    by assert ((- top_k <? 0) = true) as -> by (apply Z.ltb_lt; lia). }
  fold sims in Hsub, Hs', Hall. rewrite Hs in Hs'. injection Hs' as ->.
  rewrite sorted_desc_length, <- (Forall2_length _ _ _ Hall).
  apply sublist_length in Hsub. rewrite length_rev, length_drop in Hsub.
  subst m. rewrite Hlen in *. unfold sims in *. rewrite length_map in *. lia.
Qed.

End Ranking.

Section ScanFacts.
Context {N : Numeric}.

Lemma insert_asc_perm p l : insert_asc p l ≡ₚ p :: l.
Proof.
  induction l as [|q l IH]; simpl; [done|].
  destruct (nltb q.2 p.2); [|done]. rewrite IH. apply Permutation_swap.
Qed.

Lemma sort_positions_perm l : sort_positions l ≡ₚ imap pair l.
Proof.
  unfold sort_positions. induction (imap pair l) as [|p ps IH]; simpl; [done|].
  rewrite insert_asc_perm. by constructor.
Qed.

Lemma sort_positions_lookup l i x : (i, x) ∈ sort_positions l → l !! i = Some x.
Proof.
  rewrite sort_positions_perm. intros H.
  apply elem_of_lookup_imap in H as (j & y & [= -> ->] & Hy). done.
Qed.

Lemma argsort_stable_range l :
  Forall (λ i, (i < length l)%nat) (argsort_stable l).
Proof.
  apply Forall_forall. intros i Hi. unfold argsort_stable in Hi.
  apply list_elem_of_fmap in Hi as ([j x] & -> & Hjx). simpl.
  apply sort_positions_lookup in Hjx. by eapply lookup_lt_Some.
Qed.

Lemma argsort_stable_length l : length (argsort_stable l) = length l.
Proof.
  unfold argsort_stable. rewrite length_map, sort_positions_perm. apply length_imap.
Qed.

Lemma scan_ids dist rows q k :
  Forall (λ i, 0 ≤ i) (scan dist rows q k).2.
Proof.
  unfold scan. simpl. apply Forall_forall. intros z Hz.
  apply list_elem_of_fmap in Hz as (p & -> & _). lia.
Qed.

End ScanFacts.

Lemma reference_index_contract : IndexContract (L := float_libraries).
Proof.
  split; simpl.
  - intros xb q k ds ids. destruct (k <=? 0); [discriminate|]. intros [= <- <-].
    eapply Forall_impl; [apply (scan_ids (N := float_numeric) sq_l2 xb q k)|]. intros; simpl in *; lia.
  - intros a q n ids ds [= <- <-].
    apply (scan_ids (N := float_numeric) angular_distance (a_items a) q n).
  - intros X q k ds ids. destruct (k <=? 0); [discriminate|]. intros [= <- <-].
    apply (scan_ids (N := float_numeric)).
  - apply (argsort_stable_range (N := float_numeric)).
Qed.

(** C10: when the libraries hand back positions (faiss possibly its
    filler -1), no search fails on [self.metadata[idx]], and the metadata of
    every returned pair is an element of the store's metadata list:
    candidates at or beyond the end of that list are dropped. *)
Theorem search_metadata_in_store {N : Numeric} {L : Libraries} :
  IndexContract →
  ∀ st query top_k f,
    search st query top_k f ≠ Raise IndexError ∧
    ∀ res, search st query top_k f = Ok res →
           ∀ s m, In (s, m) res → In m (metadata st).
Proof.
  intros C st query top_k f. split; [apply search_no_index_error|].
  intros res Hs s m Hin. apply search_kept in Hs.
  rewrite Forall_forall in Hs. apply list_elem_of_In in Hin.
  by destruct (Hs _ Hin) as [H _].
Qed.

(** C8, as amended: a filtered search only returns documents whose metadata
    agrees with the filter on every key of the filter in the sense of
    [dict.get]: [metadata.get(key)] equals the filter's value, so a value
    other than [None] is stored under that key, while the value [None] is
    also met by a document without the key; and because the filter is
    applied to the candidates already retrieved, a search can return fewer
    than [top_k] results from an index that holds [top_k] documents. *)
Theorem filter_correct :
  (∀ (N : Numeric) (L : Libraries) st query top_k (fm : meta) res,
     search st query top_k (Some fm) = Ok res →
     ∀ s m, In (s, m) res →
     ∀ key v, fm !! key = Some v →
              py_get m key = v ∧ (v ≠ VNone → m !! key = Some v)) ∧
  (size (twins no_packages).1 = Ok 2%nat ∧
   ∃ res, search (twins no_packages).1 "q"%string 2 (Some (doc_meta 0)) = Ok res ∧
          (length res < 2)%nat).
Proof.
  split.
  - intros N L st query top_k fm res Hs s m Hin key v Hk.
    apply search_kept in Hs. rewrite Forall_forall in Hs.
    apply list_elem_of_In in Hin. destruct (Hs _ Hin) as [_ Hf]. simpl in Hf.
    assert (py_get m key = v) as Hget.
    { apply (filter_matches_agree fm); [|done]. apply Hf. simpl.
      apply negb_true_iff, bool_decide_eq_false. intros ->. by rewrite lookup_empty in Hk. }
    split; [done|]. intros Hv. unfold py_get in Hget.
    destruct (m !! key); simpl in Hget; congruence.
  - split; [reflexivity|]. eexists. split; [vm_compute; reflexivity|simpl; lia].
Qed.

(** ** Sizes after [add_documents] *)

Section SizeFacts.
Context {N : Numeric} {L : Libraries}.

Ltac proj_simpl :=
  cbn [index backend metadata embeddings dimension index_name
       set_dimension set_index set_metadata set_embeddings set_backend] in *.

(** the [if/elif] chain of [add_documents] *)
Definition add_to_backend (embs : list (list num)) (st : store) : outcome unit * store :=
  match backend st with
  | Some Faiss => _add_faiss embs st
  | Some Annoy => _add_annoy embs st
  | Some Sklearn => _add_sklearn embs st
  | _ => _add_numpy embs st
  end.

Lemma add_documents_nonempty texts metas st d :
  texts ≠ [] →
  add_documents texts metas st d =
    match add_to_backend (encode texts) (set_dimension (Some (shape1 (encode texts))) st) with
    | (Ok _, st2) =>
        let st3 := set_metadata (metadata st2 ++ metas) st2 in
        ((save_index st3 d).1, st3, (save_index st3 d).2)
    | (Raise x, st2) => (Raise x, st2, d)
    end.
Proof.
  destruct texts as [|t ts]; [done|]. intros _. unfold add_documents, add_to_backend.
  destruct (match backend _ with Some Faiss => _ | _ => _ end) as [[] st2]; [|done].
  by destruct (save_index _ d).
Qed.

(** [save_index] on an index that has a pickled form *)
Lemma save_index_picklable st d :
  picklable (index st) = true →
  save_index st d =
    (Ok (),
     <[ index_name st :=
          Pickled {| b_index := index st; b_metadata := metadata st;
                     b_dimension := dimension st;
                     b_backend := Some (backend st) |} ]> d).
Proof. unfold save_index. by intros ->. Qed.

(** and on an annoy index *)
Lemma save_index_annoy st d a :
  index st = Some (AnnoyIndex a) →
  save_index st d = (Raise TypeError, <[ index_name st := Empty ]> d).
Proof. unfold save_index. by intros ->. Qed.

Lemma encode_length texts : length (encode texts) = length texts.
Proof. apply length_map. Qed.

(** the three backends whose [size] counts the rows of a growing list *)
Lemma add_documents_size_faiss st d texts metas n :
  texts ≠ [] → backend st = Some Faiss → size st = Ok n →
  ∃ st' d', add_documents texts metas st d = (Ok (), st', d') ∧
            size st' = Ok (n + length texts)%nat.
Proof.
  intros Ht Hb Hn. rewrite add_documents_nonempty by done.
  unfold size in *. unfold add_to_backend, _add_faiss. proj_simpl. rewrite Hb in *.
  destruct (index st) as [[dim xb| | |]|] eqn:Hi; try discriminate;
    proj_simpl; rewrite ?Hi;
    injection Hn as <-; eexists _, _; (split; [reflexivity|]); proj_simpl;
    rewrite Hb, ?length_app, length_map, encode_length; done.
Qed.

Lemma add_documents_size_numpy st d texts metas n :
  texts ≠ [] → backend st = Some Numpy → size st = Ok n →
  ∃ st' d', add_documents texts metas st d = (Ok (), st', d') ∧
            size st' = Ok (n + length texts)%nat.
Proof.
  intros Ht Hb Hn. rewrite add_documents_nonempty by done.
  unfold size in *. unfold add_to_backend, _add_numpy. proj_simpl. rewrite Hb in *.
  destruct (index st) as [[| | |rows]|] eqn:Hi; try discriminate;
    proj_simpl; rewrite ?Hi;
    injection Hn as <-; eexists _, _; (split; [reflexivity|]); proj_simpl;
    rewrite Hb, ?length_app, ?encode_length; done.
Qed.

(** sklearn, inside the process that created the index *)
Lemma add_documents_size_sklearn st d texts metas :
  texts ≠ [] → backend st = Some Sklearn →
  (index st = None ∧ embeddings st = None) ∨
  (∃ X, index st = Some (NearestNeighbors X) ∧ embeddings st = Some X) →
  ∃ n st' d', size st = Ok n ∧
              add_documents texts metas st d = (Ok (), st', d') ∧
              size st' = Ok (n + length texts)%nat.
Proof.
  intros Ht Hb Hst. rewrite add_documents_nonempty by done.
  unfold size. unfold add_to_backend, _add_sklearn. proj_simpl. rewrite Hb.
  destruct Hst as [[-> ->]|(X & -> & ->)]; proj_simpl;
    eexists _, _, _; (split; [reflexivity|]); (split; [reflexivity|]); proj_simpl;
    rewrite Hb; proj_simpl; rewrite ?length_app, ?encode_length; done.
Qed.


(** What [annoy] documents about item counts: a new index is empty,
    [add_item(i, v)] leaves room for the ids up to [i], [build] adds no
    item. *)
Class AnnoyContract : Prop := {
  annoy_new_items dim : annoy_get_n_items (annoy_new dim) = 0%nat;
  annoy_add_item_items a i v a' :
    annoy_add_item a i v = Some a' →
    annoy_get_n_items a' = Nat.max (annoy_get_n_items a) (S i);
  annoy_build_items a k a' :
    annoy_build a k = Some a' → annoy_get_n_items a' = annoy_get_n_items a
}.

Lemma annoy_add_items_bounds {C : AnnoyContract} a i embs r a1 :
  annoy_add_items a i embs = (r, a1) →
  (annoy_get_n_items a ≤ annoy_get_n_items a1
   ≤ Nat.max (annoy_get_n_items a) (i + length embs))%nat.
Proof.
  revert a i. induction embs as [|e embs IH]; intros a i; simpl.
  - intros [= _ <-]. lia.
  - destruct (annoy_add_item a i (map astype32 e)) as [a'|] eqn:E.
    + intros H. apply IH in H. apply annoy_add_item_items in E. lia.
    + intros [= _ <-]. lia.
Qed.

Lemma annoy_add_items_ok {C : AnnoyContract} a i embs a1 :
  annoy_add_items a i embs = (Ok (), a1) → embs ≠ [] →
  annoy_get_n_items a1 = Nat.max (annoy_get_n_items a) (i + length embs).
Proof.
  revert a i. induction embs as [|e embs IH]; intros a i; simpl; [done|].
  destruct (annoy_add_item a i (map astype32 e)) as [a'|] eqn:E; [|discriminate].
  intros H _. apply annoy_add_item_items in E. destruct embs as [|e' embs].
  - simpl in H. injection H as <-. simpl. lia.
  - apply IH in H; [|done]. simpl in *. lia.
Qed.

(** C1: under the annoy backend a batch added to an index that already
    holds documents does not raise [size()] by the length of the batch: the
    items are numbered from 0 again, so the count stays below the sum. *)
Theorem annoy_second_batch {C : AnnoyContract} st a d texts metas :
  backend st = Some Annoy → index st = Some (AnnoyIndex a) →
  (0 < annoy_get_n_items a)%nat → texts ≠ [] →
  size st = Ok (annoy_get_n_items a) ∧
  ∃ n', size (add_documents texts metas st d).1.2 = Ok n' ∧
        (n' < annoy_get_n_items a + length texts)%nat.
Proof.
  intros Hb Hi Hn Ht. split; [unfold size; by rewrite Hb, Hi|].
  rewrite add_documents_nonempty by done.
  unfold add_to_backend, _add_annoy. proj_simpl. rewrite Hb, Hi. proj_simpl. rewrite Hi.
  assert (0 < length texts)%nat as Hlen by (destruct texts; [done|simpl; lia]).
  destruct (annoy_add_items a 0 (encode texts)) as [[[]|x] a1] eqn:E;
    apply annoy_add_items_bounds in E; rewrite encode_length in E.
  - destruct (annoy_build a1 10) as [a2|] eqn:Eb.
    + apply annoy_build_items in Eb. simpl. unfold size. proj_simpl. rewrite Hb.
      eexists. split; [reflexivity|]. lia.
    + simpl. unfold size. proj_simpl. rewrite Hb. eexists. split; [reflexivity|]. lia.
  - simpl. unfold size. proj_simpl. rewrite Hb. eexists. split; [reflexivity|]. lia.
Qed.

(** the loop raises only what the library refuses *)
Lemma annoy_add_items_raise a i embs x a1 :
  annoy_add_items a i embs = (Raise x, a1) → x = LibraryError.
Proof.
  revert a i. induction embs as [|v vs IH]; intros a i; simpl; [discriminate|].
  destruct (annoy_add_item a i (map astype32 v)); [apply IH|by intros [= <-]].
Qed.

(** an empty file fails every construction *)
Lemma init_empty_file e (d : gmap string file) name :
  d !! name = Some Empty → init e d name = Raise EOFError.
Proof.
  intros Hd. unfold init, init_with.
  destruct (try_backends (backends e) (new_store name)) as [st|x] eqn:E.
  - assert (index_name st = name) as Hn.
    { revert E. unfold backends. simpl.
      unfold _init_faiss, _init_annoy, _init_sklearn, _init_numpy.
      destruct (has_faiss e), (has_annoy e), (has_sklearn e); by intros [= <-]. }
    unfold load_index. by rewrite Hn, Hd.
  - revert E. unfold backends. simpl.
    unfold _init_faiss, _init_annoy, _init_sklearn, _init_numpy.
    by destruct (has_faiss e), (has_annoy e), (has_sklearn e).
Qed.

(** X21. The first batch of a new annoy index is counted but never
    stored: [add_documents] raises, and unless that is the library
    refusing an item or the build, the size of the store is the number of
    texts of the batch, the metadata have been appended, [pickle.dump] has
    raised [TypeError] on the index after the file was emptied, and the
    next construction over that file raises [EOFError]. *)
Theorem annoy_first_batch {C : AnnoyContract} st d texts metas :
  backend st = Some Annoy → index st = None → texts ≠ [] →
  ∃ x st' d',
    add_documents texts metas st d = (Raise x, st', d') ∧
    (x ≠ LibraryError →
     x = TypeError ∧ size st' = Ok (length texts) ∧
     metadata st' = metadata st ++ metas ∧
     d' = <[ index_name st := Empty ]> d ∧
     ∀ e, init e d' (index_name st) = Raise EOFError).
Proof.
  intros Hb Hi Ht. rewrite add_documents_nonempty by done.
  unfold add_to_backend, _add_annoy. proj_simpl. rewrite Hb, Hi. proj_simpl.
  destruct (annoy_add_items _ 0 (encode texts)) as [[[]|x] a1] eqn:E.
  - apply annoy_add_items_ok in E; [|by destruct texts].
    rewrite annoy_new_items, encode_length in E.
    destruct (annoy_build a1 10) as [a2|] eqn:Eb.
    + apply annoy_build_items in Eb. cbn zeta.
      rewrite (save_index_annoy _ d a2) by done. proj_simpl.
      eexists _, _, _. split; [reflexivity|]. intros _. split; [done|].
      split; [unfold size; proj_simpl; rewrite Hb; f_equal; lia|].
      split; [done|]. split; [done|].
      intros e. apply init_empty_file. cbn [snd]. by rewrite lookup_insert_eq.
    + eexists _, _, _. split; [reflexivity|]. done.
  - apply annoy_add_items_raise in E as ->.
    eexists _, _, _. split; [reflexivity|]. done.
Qed.

(** X22. Under annoy [add_documents] never returns from a batch that
    is not empty: an index that is not annoy's has no [add_item], the
    library may refuse, and when the index takes the batch [pickle.dump]
    raises [TypeError].  The file of the store is then as it was or
    empty. *)
Theorem annoy_never_returns st d texts metas :
  backend st = Some Annoy → texts ≠ [] →
  ∃ x st' d',
    add_documents texts metas st d = (Raise x, st', d') ∧
    (d' = d ∨ (x = TypeError ∧ d' = <[ index_name st := Empty ]> d)).
Proof.
  intros Hb Ht. rewrite add_documents_nonempty by done.
  unfold add_to_backend, _add_annoy. proj_simpl. rewrite Hb.
  destruct (index st) as [[| a | |]|] eqn:Hi; proj_simpl; rewrite ?Hi;
    try (eexists _, _, _; split; [reflexivity|by left]).
  - destruct (annoy_add_items a 0 (encode texts)) as [[[]|x] a1];
      [|eexists _, _, _; split; [reflexivity|by left]].
    destruct (annoy_build a1 10) as [a2|];
      [|eexists _, _, _; split; [reflexivity|by left]].
    cbn zeta. rewrite (save_index_annoy _ d a2) by done. proj_simpl.
    eexists _, _, _. split; [reflexivity|by right].
  - destruct (annoy_add_items _ 0 (encode texts)) as [[[]|x] a1];
      [|eexists _, _, _; split; [reflexivity|by left]].
    destruct (annoy_build a1 10) as [a2|];
      [|eexists _, _, _; split; [reflexivity|by left]].
    cbn zeta. rewrite (save_index_annoy _ d a2) by done. proj_simpl.
    eexists _, _, _. split; [reflexivity|by right].
Qed.

Definition first_available (e : env) : backend_name :=
  if has_faiss e then Faiss
  else if has_annoy e then Annoy
  else if has_sklearn e then Sklearn
  else Numpy.

Lemma try_backends_all_fail bs st :
  (∀ b, In b bs → is_ok (b.2 st) = false) → try_backends bs st = Raise ImportError.
Proof.
  induction bs as [|[name f] bs IH]; simpl; [done|]. intros H.
  pose proof (H (name, f) (or_introl eq_refl)) as Hf. simpl in Hf.
  destruct (f st); [discriminate|]. apply IH. intros b Hb. apply H. by right.
Qed.

Lemma try_backends_first pre name f post st st' :
  (∀ b, In b pre → is_ok (b.2 st) = false) → f st = Ok st' →
  try_backends (pre ++ (name, f) :: post) st = Ok (set_backend (Some name) st').
Proof.
  induction pre as [|[name' f'] pre IH]; simpl; intros H Hf; [by rewrite Hf|].
  pose proof (H (name', f') (or_introl eq_refl)) as Hf'. simpl in Hf'.
  destruct (f' st); [discriminate|]. apply IH; [|done]. intros b Hb. apply H. by right.
Qed.

Lemma init_backend_first e st :
  _init_backend e st = Ok (set_backend (Some (first_available e)) (set_dimension None st)).
Proof.
  unfold _init_backend, backends, first_available. simpl.
  unfold _init_faiss, _init_annoy, _init_sklearn, _init_numpy.
  by destruct (has_faiss e), (has_annoy e), (has_sklearn e).
Qed.

Lemma init_fresh e name :
  init e ∅ name =
  Ok {| index_name := name; index := None; metadata := [];
        backend := Some (first_available e); dimension := None;
        embeddings := None |}.
Proof.
  unfold init, init_with. fold (_init_backend e (new_store name)).
  rewrite init_backend_first. unfold load_index. simpl. by rewrite lookup_empty.
Qed.

(** C2: under the sklearn backend a saved index does not come back as it
    was: the reloaded store reports size 0 instead of the number of
    documents, and a search on it raises, because [self.embeddings] is not
    part of what [save_index] writes. *)
Theorem sklearn_reload texts metas name query top_k f :
  texts ≠ [] →
  ∃ st0 st1 d1 st2,
    init only_sklearn ∅ name = Ok st0 ∧
    add_documents texts metas st0 ∅ = (Ok (), st1, d1) ∧
    size st1 = Ok (length texts) ∧
    init only_sklearn d1 name = Ok st2 ∧
    backend st2 = Some Sklearn ∧
    metadata st2 = metas ∧
    size st2 = Ok 0%nat ∧
    (metas ≠ [] → search st2 query top_k f = Raise AttributeError).
Proof.
  intros Ht. eexists _, _, _, _. split; [apply init_fresh|].
  rewrite add_documents_nonempty by done.
  split; [reflexivity|]. split.
  { unfold size. simpl. by rewrite encode_length. }
  split.
  { unfold init, init_with. fold (_init_backend only_sklearn (new_store name)).
    rewrite init_backend_first. unfold load_index, save_index. simpl.
    rewrite lookup_insert_eq. reflexivity. }
  simpl. split; [done|]. split; [done|]. split; [done|].
  intros Hm. unfold search. simpl. destruct metas; [done|]. reflexivity.
Qed.


End SizeFacts.

(** ** The scenarios *)

Lemma numpy_store_twins :
  numpy_store (twins no_packages).1 [toy_embed "a"; toy_embed "a"].
Proof. by split. Qed.

Lemma numpy_store_single : numpy_store (single no_packages).1 [toy_embed "a"].
Proof. by split. Qed.

Lemma numpy_ranking_witness :
  ∃ idxs res,
    search (twins no_packages).1 "q" 2 None = Ok res ∧
    StronglySorted
      (ranked_before (map (cosine (embed "q")) [toy_embed "a"; toy_embed "a"]))
      idxs ∧
    length res = 2%nat.
Proof.
  destruct (numpy_ranking (twins no_packages).1 [toy_embed "a"; toy_embed "a"]
              "q" 2 None numpy_store_twins)
    as (_ & _ & idxs & res & Hs & _ & Hsorted & Hlen).
  { vm_compute. reflexivity. }
  exists idxs, res. split; [exact Hs|]. split; [exact Hsorted|].
  specialize (Hlen eq_refl eq_refl). change (Z.of_nat (length res) = 2) in Hlen. lia.
Defined.

(** Two documents with equal similarity: the one inserted second is
    returned first. *)
Lemma tie_goes_to_later_document :
  ∃ s, search (twins no_packages).1 "q" 2 None
       = Ok [(s, doc_meta 1); (s, doc_meta 0)]
       ∧ metadata (twins no_packages).1 = [doc_meta 0; doc_meta 1].
Proof. eexists. split; [vm_compute; reflexivity|reflexivity]. Qed.

Lemma numpy_top_k_zero_witness :
  size (single no_packages).1 = Ok 1%nat ∧
  ∃ res, search (single no_packages).1 "q" 0 None = Ok res ∧ length res = 1%nat.
Proof.
  apply (numpy_top_k_zero (single no_packages).1 [toy_embed "a"] "q"
           numpy_store_single).
  - vm_compute. reflexivity.
  - repeat constructor.
Defined.

Lemma search_metadata_in_store_witness :
  search (twins every_package).1 "q" 5 None ≠ Raise IndexError ∧
  ∀ res, search (twins every_package).1 "q" 5 None = Ok res →
         ∀ s m, In (s, m) res → In m [doc_meta 0; doc_meta 1].
Proof.
  exact (search_metadata_in_store reference_index_contract
           (twins every_package).1 "q" 5 None).
Defined.

Lemma reference_annoy_contract : AnnoyContract (L := float_libraries).
Proof.
  split; simpl.
  - done.
  - intros a i v a' [= <-]. unfold annoy_ref_add. simpl.
    rewrite length_insert, length_app, length_replicate. lia.
  - intros a k a'. unfold annoy_ref_build. destruct (a_built a); [discriminate|].
    by intros [= <-].
Qed.

Lemma annoy_second_batch_witness :
  size (single only_annoy).1 = Ok 1%nat ∧
  ∃ n', size (add_documents ["b"] [doc_meta 1]
                (single only_annoy).1 (single only_annoy).2).1.2 = Ok n' ∧
        (n' < 1 + 1)%nat.
Proof.
  apply (annoy_second_batch (C := reference_annoy_contract)
           (single only_annoy).1
           (@Build_annoy_ref float_numeric [toy_embed "a"] true)
           (single only_annoy).2 ["b"] [doc_meta 1]).
  - reflexivity.
  - reflexivity.
  - simpl. lia.
  - discriminate.
Defined.

Lemma sklearn_reload_witness :
  ∃ st0 st1 d1 st2,
    init only_sklearn ∅ "log_index" = Ok st0 ∧
    add_documents ["a"] [doc_meta 0] st0 ∅ = (Ok (), st1, d1) ∧
    size st1 = Ok 1%nat ∧
    init only_sklearn d1 "log_index" = Ok st2 ∧
    backend st2 = Some Sklearn ∧
    metadata st2 = [doc_meta 0] ∧
    size st2 = Ok 0%nat ∧
    ([doc_meta 0] ≠ [] → search st2 "q" 5 None = Raise AttributeError).
Proof.
  apply (sklearn_reload (L := float_libraries) ["a"] [doc_meta 0] "log_index" "q" 5 None).
  discriminate.
Defined.


(** A filter that asks for [None] under a key returns a document that has
    no such key. *)
Lemma none_filter_matches_missing_key :
  ∃ s, search (single no_packages).1 "q" 1 (Some {[ "k"%string := VNone ]})
       = Ok [(s, doc_meta 0)]
       ∧ doc_meta 0 !! "k"%string = None.
Proof. eexists. split; [vm_compute; reflexivity|reflexivity]. Qed.

End FlexibleFacts.

(** ** The knowledge base *)

Module KbFacts.
Import Py Lib Kb.

Section Facts.
Context {N : Numeric} {L : Libraries}.

Lemma vs_add_documents_size texts metas vs fs :
  vs_size (vs_add_documents texts metas vs fs).1 = (vs_size vs + length texts)%nat.
Proof.
  destruct texts as [|t ts]; [simpl; lia|].
  unfold vs_add_documents, vs_size. cbn [fst vs_index flat_xb].
  rewrite length_app, length_map. unfold encode. rewrite length_map.
  by destruct (vs_index vs).
Qed.

Lemma vs_add_documents_metadata texts metas vs fs :
  texts ≠ [] →
  vs_metadata (vs_add_documents texts metas vs fs).1 = vs_metadata vs ++ metas.
Proof. by destruct texts. Qed.

Lemma vs_add_documents_json texts metas vs fs :
  json_files (vs_add_documents texts metas vs fs).2 = json_files fs.
Proof. by destruct texts. Qed.

Lemma index_kb_entries k fs : entries (index_kb k fs).1 = entries k.
Proof. unfold index_kb. by destruct (vs_add_documents _ _ _ _). Qed.

Lemma index_kb_path k fs : kb_path (index_kb k fs).1 = kb_path k.
Proof. unfold index_kb. by destruct (vs_add_documents _ _ _ _). Qed.

Lemma index_kb_store k fs :
  vector_store (index_kb k fs).1 =
  (vs_add_documents (map entry_text (entries k)) (imap entry_metadata (entries k))
     (vector_store k) fs).1.
Proof. unfold index_kb. by destruct (vs_add_documents _ _ _ _). Qed.

Lemma index_kb_files k fs :
  (index_kb k fs).2 =
  (vs_add_documents (map entry_text (entries k)) (imap entry_metadata (entries k))
     (vector_store k) fs).2.
Proof. unfold index_kb. by destruct (vs_add_documents _ _ _ _). Qed.

Lemma index_kb_size k fs :
  vs_size (vector_store (index_kb k fs).1)
  = (vs_size (vector_store k) + length (entries k))%nat.
Proof. by rewrite index_kb_store, vs_add_documents_size, length_map. Qed.

(** what [add_fix] does to a knowledge base of any size *)
Lemma add_fix_appends i rc s ac tg k fs :
  let new_entry := {| issue := i; root_cause := rc; solution := s;
                      affected_components := ac; tags := tg;
                      confidence := num1 |} in
  let after := add_fix i rc s ac tg k fs in
  entries after.1 = entries k ++ [new_entry] ∧
  json_files after.2 !! kb_path k = Some (entries k ++ [new_entry]) ∧
  vs_metadata (vector_store after.1)
    = vs_metadata (vector_store k) ++ imap entry_metadata (entries k ++ [new_entry]) ∧
  vs_size (vector_store after.1)
    = (vs_size (vector_store k) + (length (entries k) + 1))%nat.
Proof.
  intros new_entry after. unfold after, add_fix. fold new_entry.
  rewrite index_kb_entries, index_kb_files, vs_add_documents_json,
    index_kb_size, index_kb_store.
  cbn [entries kb_path vector_store set_entries save_kb json_files].
  rewrite lookup_insert_eq, length_app. simpl length.
  repeat (split; [done|]). split; [|done].
  apply vs_add_documents_metadata. by destruct (entries k).
Qed.

(** C4: [add_fix] appends the entry and persists the knowledge base, but
    its re-indexing adds every entry to the vector index once more without
    emptying it: from the three seeded entries, one [add_fix] leaves four
    entries and seven indexed documents. *)
Theorem add_fix_duplicates i rc s ac tg :
  let start := kb_init None no_files in
  let after := add_fix i rc s ac tg start.1 start.2 in
  length (entries start.1) = 3%nat ∧
  vs_size (vector_store start.1) = 3%nat ∧
  length (entries after.1) = 4%nat ∧
  vs_size (vector_store after.1) = 7%nat ∧
  length (vs_metadata (vector_store after.1)) = 7%nat.
Proof.
  intros start after.
  assert (length (entries start.1) = 3%nat ∧ vs_size (vector_store start.1) = 3%nat ∧
          length (vs_metadata (vector_store start.1)) = 3%nat) as (He & Hs & Hm).
  { by vm_compute. }
  destruct (add_fix_appends i rc s ac tg start.1 start.2) as (H1 & _ & H3 & H4).
  fold after in H1, H3, H4.
  rewrite H1, H3, H4, !length_app, length_imap, length_app, He, Hs, Hm. done.
Qed.

End Facts.

End KbFacts.

(** * Beyond the claims *)
(** ** The flexible store: persistence, order, scores and bounds *)

Module StoreProperties.
Import Py Lib Flexible Reference Scenario FlexibleFacts.

Section Persistence.
Context {N : Numeric} {L : Libraries}.

Ltac proj_simpl :=
  cbn [index backend metadata embeddings dimension index_name
       set_dimension set_index set_metadata set_embeddings set_backend
       b_index b_metadata b_dimension b_backend] in *.

(** [search] and [size] read three attributes, and a fourth under sklearn *)
Lemma search_same_attributes (st1 st2 : store) query top_k f :
  index st1 = index st2 → metadata st1 = metadata st2 →
  backend st1 = backend st2 → backend st1 ≠ Some Sklearn →
  search st1 query top_k f = search st2 query top_k f.
Proof.
  intros Hi Hm Hb Hs. unfold search. rewrite <- Hi, <- Hm, <- Hb.
  destruct (index st1) as [i|] eqn:Ei; [|done].
  destruct (metadata st1) as [|m ms] eqn:Em; [done|].
  unfold _search_faiss, _search_annoy, _search_numpy, _format_results.
  rewrite <- Hi, <- Hm, Ei, Em.
  by destruct (backend st1) as [[]|].
Qed.

Lemma size_same_attributes (st1 st2 : store) :
  index st1 = index st2 → backend st1 = backend st2 →
  backend st1 ≠ Some Sklearn → size st1 = size st2.
Proof.
  intros Hi Hb Hs. unfold size. rewrite <- Hi, <- Hb.
  by destruct (backend st1) as [[]|].
Qed.

(** the package of the index can be imported where the store is
    constructed anew; an annoy index is never in a file *)
Definition loadable (e : env) (i : option index_obj) : Prop :=
  match i with
  | Some (IndexFlatL2 _ _) => has_faiss e = true
  | Some (NearestNeighbors _) => has_sklearn e = true
  | Some (AnnoyIndex _) => False
  | Some (Ndarray _) | None => True
  end.

(** X1. A store is saved and constructed anew under the same name.
    When its index is not annoy's the save succeeds, and wherever the
    package of the index can be imported the new store has the index, the
    metadata, the dimension and the backend of the old one, hence the same
    size and the same answer to every search, as long as the backend is
    not scikit-learn. *)
Theorem reload_restores (e : env) (st : store) (d : gmap string file) :
  backend st ≠ Some Sklearn → loadable e (index st) →
  ∃ d' st', save_index st d = (Ok (), d') ∧
            init e d' (index_name st) = Ok st' ∧
            index st' = index st ∧ metadata st' = metadata st ∧
            dimension st' = dimension st ∧ backend st' = backend st ∧
            size st' = size st ∧
            ∀ query top_k f, search st' query top_k f = search st query top_k f.
Proof.
  intros Hs Hload.
  assert (picklable (index st) = true) as Hp by (by destruct (index st) as [[]|]).
  assert (∀ st1 : store,
            index st1 = index st → metadata st1 = metadata st →
            dimension st1 = dimension st → backend st1 = backend st →
            index st1 = index st ∧ metadata st1 = metadata st ∧
            dimension st1 = dimension st ∧ backend st1 = backend st ∧
            size st1 = size st ∧
            ∀ query top_k f, search st1 query top_k f = search st query top_k f) as Hsame.
  { intros st1 Hi Hm Hd Hb. repeat (split; [done|]). split.
    - apply size_same_attributes; [done|done|by rewrite Hb].
    - intros. apply search_same_attributes; [done|done|done|by rewrite Hb]. }
  rewrite (save_index_picklable _ _ Hp).
  unfold init, init_with. fold (_init_backend e (new_store (index_name st))).
  rewrite init_backend_first. unfold load_index. proj_simpl. simpl index_name.
  exists (<[ index_name st :=
              Pickled {| b_index := index st; b_metadata := metadata st;
                         b_dimension := dimension st;
                         b_backend := Some (backend st) |} ]> d).
  rewrite lookup_insert_eq. unfold unpickle. proj_simpl.
  destruct (index st) as [[dim xb|a|X|rows]|] eqn:Hi; simpl in Hload; [|done| | |];
    rewrite ?Hload; eexists; (split; [reflexivity|]); (split; [reflexivity|]);
    apply Hsame; by proj_simpl.
Qed.

(** the step of a backend changes neither name, backend nor metadata *)
Lemma add_to_backend_keeps embs (st : store) r st2 :
  add_to_backend embs st = (r, st2) →
  index_name st2 = index_name st ∧ backend st2 = backend st ∧
  metadata st2 = metadata st.
Proof.
  unfold add_to_backend, _add_faiss, _add_annoy, _add_sklearn, _add_numpy.
  repeat case_match; intros [= <- <-]; by proj_simpl.
Qed.

(** X2. [add_documents] keeps the name and the backend of the store and
    touches no file but the store's own.  When it returns it has appended
    the metadata and written the index, the metadata, the dimension and
    the backend it ends with.  When it raises, either the step of the
    backend raised and neither the file nor the metadata have changed, or
    the index is annoy's and [pickle.dump] raised [TypeError]: then the
    metadata are appended all the same and the file is left empty. *)
Theorem add_documents_persists texts metas (st : store) (d : gmap string file) :
  let '(r, st', d') := add_documents texts metas st d in
  index_name st' = index_name st ∧ backend st' = backend st ∧
  (∀ name, name ≠ index_name st → d' !! name = d !! name) ∧
  match r with
  | Ok _ =>
      texts ≠ [] →
      metadata st' = metadata st ++ metas ∧
      d' !! index_name st =
        Some (Pickled {| b_index := index st'; b_metadata := metadata st';
                         b_dimension := dimension st';
                         b_backend := Some (backend st') |})
  | Raise x =>
      (d' = d ∧ metadata st' = metadata st) ∨
      (x = TypeError ∧ (∃ a, index st' = Some (AnnoyIndex a)) ∧
       metadata st' = metadata st ++ metas ∧
       d' = <[ index_name st := Empty ]> d)
  end.
Proof.
  destruct texts as [|t ts]; [by simpl|].
  rewrite add_documents_nonempty by done.
  set (embs := encode (t :: ts)).
  set (st1 := set_dimension (Some (shape1 embs)) st).
  pose proof (add_to_backend_keeps embs st1 _ _ (surjective_pairing _)) as Hkeep.
  destruct (add_to_backend embs st1) as [[[]|x] st2]; destruct Hkeep as (Hn & Hb & Hm);
    simpl in Hn, Hb, Hm; [|by repeat (split; [done|]); left].
  cbn zeta. unfold save_index. proj_simpl. rewrite Hn, Hm.
  destruct (picklable (index st2)) eqn:Hp; cbn [fst snd]; proj_simpl.
  - split; [done|]. split; [done|]. split.
    { intros name Hne. by rewrite lookup_insert_ne. }
    intros _. split; [done|]. by rewrite lookup_insert_eq.
  - split; [done|]. split; [done|]. split.
    { intros name Hne. by rewrite lookup_insert_ne. }
    right. split; [done|]. split; [|done].
    destruct (index st2) as [[| a | |]|]; try discriminate. by exists a.
Qed.

Lemma add_documents_metadata texts metas st d st' d' :
  texts ≠ [] → add_documents texts metas st d = (Ok (), st', d') →
  metadata st' = metadata st ++ metas.
Proof.
  intros Ht. rewrite add_documents_nonempty by done.
  destruct (add_to_backend _ _) as [[[]|x] st2] eqn:E; [|discriminate].
  apply add_to_backend_keeps in E as (_ & _ & Hm). cbn zeta.
  intros [= _ <- _]. proj_simpl. by rewrite Hm.
Qed.

(** X3. Under faiss and under numpy a store whose index holds one vector
    per metadata entry keeps that shape: a batch with as many metadata as
    texts is accepted, the size grows by the number of texts, and it is
    again the number of metadata entries. *)
Theorem add_documents_parallel st d texts metas :
  backend st = Some Faiss ∨ backend st = Some Numpy →
  texts ≠ [] → length metas = length texts →
  size st = Ok (length (metadata st)) →
  ∃ st' d', add_documents texts metas st d = (Ok (), st', d') ∧
            size st' = Ok (length (metadata st) + length texts)%nat ∧
            size st' = Ok (length (metadata st')).
Proof.
  intros Hb Ht Hlen Hn.
  assert (∃ st' d', add_documents texts metas st d = (Ok (), st', d') ∧
            size st' = Ok (length (metadata st) + length texts)%nat)
    as (st' & d' & Ha & Hs).
  { destruct Hb as [Hb|Hb];
      [eapply add_documents_size_faiss|eapply add_documents_size_numpy]; done. }
  exists st', d'. split; [done|]. split; [done|].
  rewrite Hs, (add_documents_metadata _ _ _ _ _ _ Ht Ha), length_app. by rewrite Hlen.
Qed.

End Persistence.

Section Order.
Context {A K : Type} (key : A → K) (lt : K → K → bool).

(** [lt] behaves as a strict order with comparable ties on the keys [ks]:
    it is asymmetric, and a key below another is below or above every
    third one (among floats: no NaN) *)
Definition strict_weak_on (ks : list K) : Prop :=
  (∀ a b, a ∈ ks → b ∈ ks → lt a b = true → lt b a = false) ∧
  (∀ a b c, a ∈ ks → b ∈ ks → c ∈ ks →
            lt a c = true → lt a b = true ∨ lt b c = true).

Lemma insert_desc_sorted ks x l :
  strict_weak_on ks → key x ∈ ks → Forall (λ a, key a ∈ ks) l →
  StronglySorted (λ a b, lt (key a) (key b) = false) l →
  StronglySorted (λ a b, lt (key a) (key b) = false) (insert_desc key lt x l).
Proof.
  intros [Hasym Hneg] Hx Hks. induction 1 as [|y l Hl IH Hy]; simpl.
  - repeat constructor.
  - inversion Hks as [|? ? Hyk Hlk]; subst. rewrite Forall_forall in Hy, Hlk.
    destruct (lt (key x) (key y)) eqn:Hxy.
    + constructor; [by apply IH, Forall_forall|].
      apply Forall_forall. intros z Hz. rewrite insert_desc_perm in Hz.
      apply elem_of_cons in Hz as [->|Hz]; [by apply Hasym|by apply Hy].
    + constructor; [constructor; [done|by apply Forall_forall]|].
      constructor; [done|]. apply Forall_forall. intros z Hz.
      destruct (lt (key x) (key z)) eqn:Hxz; [|done].
      destruct (Hneg (key x) (key y) (key z)) as [H|H]; auto; [congruence|].
      by rewrite (Hy z Hz) in H.
Qed.

Lemma sorted_desc_sorted l :
  strict_weak_on (map key l) →
  StronglySorted (λ a b, lt (key a) (key b) = false) (sorted_desc key lt l).
Proof.
  intros Hlaws.
  assert (∀ l', l' ⊆ l → StronglySorted (λ a b, lt (key a) (key b) = false)
                            (sorted_desc key lt l')) as H; [|by apply H].
  induction l' as [|x l' IH]; intros Hsub; simpl; [constructor|].
  apply (insert_desc_sorted (map key l)); [done| | |].
  - apply list_elem_of_fmap_2, Hsub. by left.
  - apply Forall_forall. intros a Ha. rewrite sorted_desc_perm in Ha.
    apply list_elem_of_fmap_2, Hsub. by right.
  - apply IH. intros a Ha. apply Hsub. by right.
Qed.

End Order.

Section Results.
Context {N : Numeric} {L : Libraries}.

Lemma search_is_sorted_run st query top_k f res :
  search st query top_k f = Ok res →
  res = [] ∨ ∃ l, res = sorted_desc fst nltb l.
Proof.
  unfold search, _search_faiss, _search_annoy, _search_sklearn, _search_numpy,
    _format_results.
  repeat case_match; try discriminate; intros [= <-]; eauto.
Qed.

(** X4. Whatever the backend, the results of a search come in descending
    order of score: no result has a smaller score than a later one,
    provided the comparison of the returned scores is a strict order with
    comparable ties. *)
Theorem search_descending st query top_k f res :
  search st query top_k f = Ok res →
  strict_weak_on nltb (map fst res) →
  StronglySorted (λ a b, nltb a.1 b.1 = false) res.
Proof.
  intros Hs Hlaws. destruct (search_is_sorted_run _ _ _ _ _ Hs) as [->|[l ->]];
    [constructor|].
  apply sorted_desc_sorted. destruct Hlaws as [Hasym Hneg].
  assert (∀ k, k ∈ map fst l → k ∈ map fst (sorted_desc fst nltb l)) as Hin.
  { intros k. by rewrite (sorted_desc_perm fst nltb l). }
  split; [intros a b ? ?|intros a b c ? ? ?]; auto.
Qed.

Lemma format_loop_scores mds f pairs acc res :
  format_loop mds f pairs acc = Ok res →
  ∀ p, p ∈ res → p ∈ acc ∨ ∃ idx, (p.1, idx) ∈ pairs.
Proof.
  revert acc. induction pairs as [|[score idx] pairs IH]; intros acc; simpl.
  - intros [= <-] p Hp. by left.
  - assert (∀ acc', format_loop mds f pairs acc' = Ok res →
              (∀ p, p ∈ acc' → p ∈ acc ∨ p.1 = score) →
              ∀ p, p ∈ res → p ∈ acc ∨ ∃ idx0, (p.1, idx0) ∈ (score, idx) :: pairs) as Hstep.
    { intros acc' Hl Hacc p Hp. destruct (IH _ Hl p Hp) as [Hin|[i Hi]].
      - destruct (Hacc p Hin) as [?|Hs]; [by left|]. right. exists idx.
        rewrite <- Hs. destruct p. by left.
      - right. exists i. by right. }
    destruct (idx <? Z.of_nat (length mds)); [|intros H; apply (Hstep acc H); auto].
    destruct (py_index mds idx) as [m|]; [|discriminate].
    destruct (filter_active f && negb (filter_matches f m));
      intros H; apply (Hstep _ H); auto.
    intros p Hp. apply elem_of_app in Hp as [?|Hp]; [by left|].
    apply list_elem_of_singleton in Hp as ->. by right.
Qed.

Lemma format_results_scores st scores indices f res :
  _format_results st scores indices f = Ok res →
  ∀ p, p ∈ res → p.1 ∈ scores.
Proof.
  unfold _format_results.
  destruct (format_loop _ _ _ _) as [r|] eqn:E; [|discriminate].
  intros [= <-] p Hp. rewrite sorted_desc_perm in Hp.
  destruct (format_loop_scores _ _ _ _ _ E p Hp) as [Hin|[idx Hin]].
  - by apply elem_of_nil in Hin.
  - by apply elem_of_zip_l in Hin.
Qed.

(** where the score of a result comes from, backend by backend *)
Definition score_source (st : store) (query : string) (top_k : Z) (s : num) : Prop :=
  match backend st, index st with
  | Some Faiss, Some (IndexFlatL2 _ xb) =>
      ∃ distances indices,
        faiss_search xb (map astype32 (embed query))
          (Z.min top_k (Z.of_nat (length xb))) = Some (distances, indices) ∧
        s ∈ distances
  | Some Annoy, Some (AnnoyIndex a) =>
      ∃ indices distances d,
        annoy_get_nns_by_vector a (map astype32 (embed query)) top_k
          = Some (indices, distances) ∧
        d ∈ distances ∧ s = ndiv num1 (nadd num1 d)
  | Some Sklearn, Some (NearestNeighbors fit_X) =>
      ∃ e distances indices d,
        embeddings st = Some e ∧
        kneighbors fit_X (embed query) (Z.min top_k (Z.of_nat (length e)))
          = Some (distances, indices) ∧
        d ∈ distances ∧ s = nsub num1 d
  | (Some Numpy | None), Some (Ndarray rows) =>
      ∃ doc, doc ∈ rows ∧ s = cosine (embed query) doc
  | _, _ => False
  end.

(** X5. What the score of a result is depends on the backend: under
    faiss it is a distance as [IndexFlatL2.search] returned it (so the
    descending order puts the farthest of the neighbours first), under
    annoy [1 / (1 + d)] and under scikit-learn [1 - d] for a returned
    distance [d], and under numpy the cosine of the query and a stored
    row. *)
Theorem score_provenance st query top_k f res s m :
  search st query top_k f = Ok res → (s, m) ∈ res →
  score_source st query top_k s.
Proof.
  intros Hs Hin. unfold score_source. unfold search in Hs.
  destruct (index st) as [i|] eqn:Hi; [|injection Hs as <-; by apply elem_of_nil in Hin].
  destruct (metadata st) as [|m0 ms] eqn:Hm; [injection Hs as <-; by apply elem_of_nil in Hin|].
  assert (_search_numpy st (embed query) top_k f = Ok res →
          match i with
          | Ndarray rows => ∃ doc, doc ∈ rows ∧ s = cosine (embed query) doc
          | _ => False
          end) as Hnp.
  { unfold _search_numpy. rewrite Hi. destruct i; try discriminate.
    destruct (pick _ _) as [ts|] eqn:Hp; [|discriminate]. intros Hf.
    pose proof (format_results_scores _ _ _ _ _ Hf _ Hin) as Hsc. simpl in Hsc.
    clear Hf. revert ts Hp Hsc.
    induction (rev _) as [|j js IH]; simpl; intros ts Hp Hsc.
    - injection Hp as <-. by apply elem_of_nil in Hsc.
    - destruct (map (cosine (embed query)) rows !! j) as [sj|] eqn:Hj; [|discriminate].
      destruct (pick _ js) as [l|]; [|discriminate]. injection Hp as <-.
      apply elem_of_cons in Hsc as [->|Hsc]; [|by eapply IH].
      rewrite list_lookup_fmap in Hj. destruct (rows !! j) as [doc|] eqn:Hd; [|discriminate].
      injection Hj as <-. exists doc. split; [by eapply list_elem_of_lookup_2|done]. }
  destruct (backend st) as [[]|]; try exact (Hnp Hs).
  - unfold _search_faiss in Hs. rewrite Hi in Hs. destruct i; try discriminate.
    destruct (faiss_search _ _ _) as [[ds ids]|]; [|discriminate].
    exists ds, ids. split; [done|]. by apply (format_results_scores _ _ _ _ _ Hs (s, m)).
  - unfold _search_annoy in Hs. rewrite Hi in Hs. destruct i; try discriminate.
    destruct (annoy_get_nns_by_vector _ _ _) as [[ids ds]|]; [|discriminate].
    pose proof (format_results_scores _ _ _ _ _ Hs (s, m) Hin) as Hsc. simpl in Hsc.
    apply list_elem_of_fmap in Hsc as (d & -> & Hd). by exists ids, ds, d.
  - unfold _search_sklearn in Hs. rewrite Hi in Hs. destruct i; try discriminate.
    destruct (embeddings st) as [e|]; [|discriminate].
    destruct (kneighbors _ _ _) as [[ds ids]|] eqn:Ek; [|discriminate].
    pose proof (format_results_scores _ _ _ _ _ Hs (s, m) Hin) as Hsc. simpl in Hsc.
    apply list_elem_of_fmap in Hsc as (d & -> & Hd). by exists e, ds, ids, d.
Qed.

(** How many neighbours a library hands back: no more than it was asked
    for, and annoy no more than it holds. *)
Class CountContract : Prop := {
  faiss_count xb q k ds ids :
    faiss_search xb q k = Some (ds, ids) → Z.of_nat (length ids) ≤ Z.max 0 k;
  annoy_count a q n ids ds :
    annoy_get_nns_by_vector a q n = Some (ids, ds) →
    Z.of_nat (length ids) ≤ Z.max 0 n ∧ (length ids ≤ annoy_get_n_items a)%nat;
  sklearn_count X q k ds ids :
    kneighbors X q k = Some (ds, ids) → Z.of_nat (length ids) ≤ Z.max 0 k
}.

Lemma format_results_length st scores indices f res :
  _format_results st scores indices f = Ok res →
  (length res ≤ length indices)%nat.
Proof.
  unfold _format_results.
  destruct (format_loop _ _ _ _) as [r|] eqn:E; [|discriminate].
  intros [= <-]. rewrite sorted_desc_length. apply format_loop_length in E.
  simpl in E. rewrite length_zip in E. lia.
Qed.

(** X6. Under faiss, annoy and scikit-learn a search with a non-negative
    [top_k] returns at most [min(top_k, size)] results, when the library
    returns no more neighbours than it is asked for. *)
Theorem library_backends_bound {C : CountContract} st query top_k f res n :
  backend st = Some Faiss ∨ backend st = Some Annoy ∨ backend st = Some Sklearn →
  0 ≤ top_k →
  search st query top_k f = Ok res → size st = Ok n →
  Z.of_nat (length res) ≤ Z.min top_k (Z.of_nat n).
Proof.
  intros Hb Hk Hs Hn. unfold search in Hs.
  destruct (index st) as [i|] eqn:Hi; [|injection Hs as <-; simpl; lia].
  destruct (metadata st) as [|m ms] eqn:Hm; [injection Hs as <-; simpl; lia|].
  unfold size in Hn. rewrite Hi in Hn.
  destruct Hb as [Hb|[Hb|Hb]]; rewrite Hb in Hs, Hn.
  - unfold _search_faiss in Hs. rewrite Hi in Hs. destruct i; try discriminate.
    injection Hn as <-.
    destruct (faiss_search _ _ _) as [[ds ids]|] eqn:E; [|discriminate].
    apply faiss_count in E. apply format_results_length in Hs. lia.
  - unfold _search_annoy in Hs. rewrite Hi in Hs. destruct i; try discriminate.
    injection Hn as <-.
    destruct (annoy_get_nns_by_vector _ _ _) as [[ids ds]|] eqn:E; [|discriminate].
    apply annoy_count in E. apply format_results_length in Hs. lia.
  - unfold _search_sklearn in Hs. rewrite Hi in Hs. destruct i; try discriminate.
    destruct (embeddings st) as [e|]; [|discriminate]. injection Hn as <-.
    destruct (kneighbors _ _ _) as [[ds ids]|] eqn:E; [|discriminate].
    apply sklearn_count in E. apply format_results_length in Hs. lia.
Qed.

(** the loop with a filter against the loop without one *)
Lemma format_loop_filter mds f pairs acc acc0 :
  acc ⊆ acc0 →
  match format_loop mds None pairs acc0 with
  | Ok all => ∃ res, format_loop mds f pairs acc = Ok res ∧ res ⊆ all
  | Raise x => format_loop mds f pairs acc = Raise x
  end.
Proof.
  revert acc acc0. induction pairs as [|[score idx] pairs IH]; intros acc acc0 Hsub; simpl.
  - by exists acc.
  - destruct (idx <? Z.of_nat (length mds)); [|by apply IH].
    destruct (py_index mds idx) as [m|]; [|done].
    destruct (filter_active f && negb (filter_matches f m)); apply IH.
    + intros p Hp. apply elem_of_app. left. by apply Hsub.
    + intros p Hp. apply elem_of_app. apply elem_of_app in Hp as [Hp|Hp]; auto.
Qed.

Lemma format_results_filter st scores indices f :
  match _format_results st scores indices None with
  | Ok all => ∃ res, _format_results st scores indices f = Ok res ∧ res ⊆ all
  | Raise x => _format_results st scores indices f = Raise x
  end.
Proof.
  unfold _format_results.
  pose proof (format_loop_filter (metadata st) f (zip scores indices) [] []) as H.
  destruct (format_loop (metadata st) None _ []) as [all|x].
  - destruct H as (res & -> & Hsub); [done|]. eexists. split; [done|].
    intros p. rewrite !sorted_desc_perm. apply Hsub.
  - by rewrite H.
Qed.

(** a filter that is an empty dictionary is no filter *)
Lemma format_results_empty_filter st scores indices :
  _format_results st scores indices (Some ∅) = _format_results st scores indices None.
Proof.
  unfold _format_results.
  assert (filter_active (Some (∅ : meta)) = false) as Hfa
    by (unfold filter_active; by rewrite bool_decide_eq_true_2).
  assert (∀ pairs acc, format_loop (metadata st) (Some ∅) pairs acc
                       = format_loop (metadata st) None pairs acc) as ->; [|done].
  induction pairs as [|[score idx] pairs IH]; intros acc; cbn [format_loop]; [done|].
  rewrite Hfa. destruct (idx <? Z.of_nat (length (metadata st))); [|apply IH].
  destruct (py_index (metadata st) idx); [apply IH|done].
Qed.

(** what the library or [pick] returned, case by case *)
Ltac step_library :=
  repeat match goal with
  | |- context [match ?x with _ => _ end] =>
      lazymatch type of x with
      | option _ => destruct x as [?|]
      | prod _ _ => destruct x
      | outcome (list num) => destruct x
      end
  end.

(** X7. The metadata filter is applied to the neighbours already
    chosen: a search with a filter raises exactly when the search without
    one does, and otherwise returns only results of the search without
    one (so it may return fewer than [top_k] although more documents
    match); a filter that is an empty dictionary changes nothing. *)
Theorem filter_only_removes st query top_k f :
  match search st query top_k None with
  | Ok all => ∃ res, search st query top_k f = Ok res ∧ res ⊆ all
  | Raise x => search st query top_k f = Raise x
  end
  ∧ search st query top_k (Some ∅) = search st query top_k None.
Proof.
  split.
  - unfold search. destruct (index st) as [i|] eqn:Hi; [|by exists []].
    destruct (metadata st) as [|m ms] eqn:Hm; [by exists []|].
    unfold _search_faiss, _search_annoy, _search_sklearn, _search_numpy. rewrite Hi.
    destruct (backend st) as [[]|]; destruct i; try done;
      step_library; try done; apply format_results_filter.
  - unfold search. destruct (index st) as [i|] eqn:Hi; [|done].
    destruct (metadata st) as [|m ms] eqn:Hm; [done|].
    unfold _search_faiss, _search_annoy, _search_sklearn, _search_numpy. rewrite Hi.
    destruct (backend st) as [[]|]; destruct i; try done;
      step_library; try done; apply format_results_empty_filter.
Qed.

End Results.

(** *** The scenarios *)

Lemma reload_restores_witness :
  ∃ d' st', save_index (twins every_package).1 ∅ = (Ok (), d') ∧
            init every_package d' "log_index" = Ok st' ∧
            index st' = index (twins every_package).1 ∧
            metadata st' = metadata (twins every_package).1 ∧
            dimension st' = dimension (twins every_package).1 ∧
            backend st' = backend (twins every_package).1 ∧
            size st' = size (twins every_package).1 ∧
            ∀ query top_k f, search st' query top_k f
                             = search (twins every_package).1 query top_k f.
Proof.
  apply (reload_restores every_package (twins every_package).1 ∅);
    [discriminate|reflexivity].
Defined.

Lemma add_documents_parallel_witness :
  ∃ st' d', add_documents ["b"; "c"]%string [doc_meta 2; doc_meta 3]
              (twins every_package).1 (twins every_package).2 = (Ok (), st', d') ∧
            size st' = Ok 4%nat ∧ size st' = Ok (length (metadata st')).
Proof.
  apply (add_documents_parallel (twins every_package).1 (twins every_package).2
           ["b"; "c"]%string [doc_meta 2; doc_meta 3]).
  - by left.
  - discriminate.
  - reflexivity.
  - reflexivity.
Defined.

Lemma search_descending_witness :
  ∃ res, search (twins no_packages).1 "q" 2 None = Ok res ∧
         StronglySorted (λ a b, nltb a.1 b.1 = false) res.
Proof.
  eexists. split; [vm_compute; reflexivity|].
  apply (search_descending (twins no_packages).1 "q" 2 None); [vm_compute; reflexivity|].
  split.
  - intros a b Ha Hb. simpl in Ha, Hb.
    repeat (apply elem_of_cons in Ha as [->|Ha]); try (by apply elem_of_nil in Ha);
    repeat (apply elem_of_cons in Hb as [->|Hb]); try (by apply elem_of_nil in Hb);
    by vm_compute.
  - intros a b c Ha Hb Hc. simpl in Ha, Hb, Hc.
    repeat (apply elem_of_cons in Ha as [->|Ha]); try (by apply elem_of_nil in Ha);
    repeat (apply elem_of_cons in Hb as [->|Hb]); try (by apply elem_of_nil in Hb);
    repeat (apply elem_of_cons in Hc as [->|Hc]); try (by apply elem_of_nil in Hc);
    by vm_compute.
Defined.

Lemma reference_count_contract : CountContract (L := float_libraries).
Proof.
  assert (∀ dist rows q k,
            Z.of_nat (length (scan (N := float_numeric) dist rows q k).2) ≤ Z.max 0 k ∧
            (length (scan (N := float_numeric) dist rows q k).2 ≤ length rows)%nat) as Hscan.
  { intros. unfold scan. simpl. rewrite length_map, length_take.
    rewrite sort_positions_perm, length_imap, length_map. lia. }
  split; simpl.
  - intros xb q k ds ids. destruct (k <=? 0); [discriminate|]. intros [= <- <-].
    apply (Hscan sq_l2 xb q k).
  - intros a q n ids ds [= <- <-]. apply (Hscan angular_distance (a_items a) q n).
  - intros X q k ds ids. destruct (k <=? 0); [discriminate|]. intros [= <- <-].
    apply (Hscan cosine_distance X q k).
Qed.

Lemma library_backends_bound_witness :
  ∃ res, search (twins every_package).1 "q" 1 None = Ok res ∧
         Z.of_nat (length res) ≤ Z.min 1 (Z.of_nat 2).
Proof.
  eexists. split; [vm_compute; reflexivity|].
  apply (library_backends_bound (C := reference_count_contract)
           (twins every_package).1 "q" 1 None _ 2);
    [by left|done|vm_compute; reflexivity|reflexivity].
Defined.

(** under faiss the score of the one result is the distance itself *)
Lemma score_provenance_witness :
  ∃ res s m, search (twins every_package).1 "q" 1 None = Ok res ∧ (s, m) ∈ res ∧
             score_source (twins every_package).1 "q" 1 s.
Proof.
  assert (∃ s m res, search (twins every_package).1 "q" 1 None = Ok ((s, m) :: res))
    as (s & m & res & Hs) by (eexists _, _, _; vm_compute; reflexivity).
  exists ((s, m) :: res), s, m. split; [exact Hs|]. split; [by left|].
  apply (score_provenance (twins every_package).1 "q" 1 None ((s, m) :: res) s m Hs).
  by left.
Defined.

(** the numpy branch with a positive bound on the two equal documents *)
Lemma numpy_bound_positive_witness :
  ∃ res, search (twins no_packages).1 "q" 1 None = Ok res ∧
         Z.of_nat (length res) ≤ Z.min 1 (Z.of_nat 2).
Proof.
  eexists. split; [vm_compute; reflexivity|].
  apply (numpy_bound_positive (twins no_packages).1 [toy_embed "a"; toy_embed "a"]
           "q" 1 None _ numpy_store_twins).
  - vm_compute. reflexivity.
  - vm_compute. repeat constructor.
  - lia.
  - vm_compute. reflexivity.
Defined.

(** the first batch of a store that has just chosen annoy *)
Lemma annoy_first_batch_witness :
  ∃ st' d', add_documents ["a"; "b"]%string [doc_meta 0; doc_meta 1]
              (opened only_annoy ∅) ∅ = (Raise TypeError, st', d') ∧
            size st' = Ok 2%nat ∧
            init only_annoy d' "log_index" = Raise EOFError.
Proof.
  destruct (annoy_first_batch (C := reference_annoy_contract) (opened only_annoy ∅) ∅
              ["a"; "b"]%string [doc_meta 0; doc_meta 1])
    as (x & st' & d' & Hadd & H); [reflexivity|reflexivity|discriminate|].
  assert (x = TypeError) as ->.
  { assert ((add_documents ["a"; "b"]%string [doc_meta 0; doc_meta 1]
               (opened only_annoy ∅) ∅).1.1 = Raise TypeError) as Hx by reflexivity.
    rewrite Hadd in Hx. by injection Hx. }
  destruct H as (_ & Hsize & _ & _ & Hinit); [discriminate|].
  exists st', d'. split; [exact Hadd|]. split; [exact Hsize|]. apply Hinit.
Defined.

(** and a second batch: the call raises again *)
Lemma annoy_never_returns_witness :
  ∃ x st' d', add_documents ["b"]%string [doc_meta 1]
                (single only_annoy).1 (single only_annoy).2 = (Raise x, st', d') ∧
              (d' = (single only_annoy).2 ∨
               (x = TypeError ∧
                d' = <[ index_name (single only_annoy).1 := Empty ]>
                       (single only_annoy).2)).
Proof.
  apply (annoy_never_returns (single only_annoy).1 (single only_annoy).2
           ["b"]%string [doc_meta 1]); [reflexivity|discriminate].
Defined.

End StoreProperties.

(** ** The engine: the fallback and the statistics *)

Module EngineProperties.
Import Text Parser RagEngine TextFacts ParserFacts EngineFacts.
Local Open Scope nat_scope.

Lemma lower_app (a b : str) : lower (a ++ b) = lower a ++ lower b.
Proof. apply map_app. Qed.

(** a line with [ERROR] in it has [error] in its lower-case form *)
Lemma error_marker_lower line :
  contains (lit "ERROR") line = true → contains (lit "error") (lower line) = true.
Proof.
  rewrite !contains_spec. intros (pre & post & ->).
  exists (lower pre), (lower post). by rewrite !lower_app.
Qed.

(** so the keyword [error], which is longer than three characters, hits *)
Lemma keyword_error_hits ws line :
  contains (lit "ERROR") line = true →
  any_word_hits (ws ++ keywords) (lower line) = true.
Proof.
  intros H. unfold any_word_hits. apply existsb_exists. exists (lit "error").
  split.
  - apply in_or_app. right. unfold keywords. simpl. tauto.
  - by rewrite (error_marker_lower _ H).
Qed.

Lemma fold_left_pointwise {A B} (F G : A → B → A) l acc :
  (∀ a x, F a x = G a x) → fold_left F l acc = fold_left G l acc.
Proof.
  intros H. revert acc. induction l as [|x l IH]; intros acc; simpl; [done|].
  by rewrite H, IH.
Qed.

(** ['ERROR' in line] *)
Definition has_error (line : str) : bool := contains (lit "ERROR") line.

Lemma error_lines_filter (ls : list str) :
  filter (λ line, contains (lit "ERROR") line = true) ls = List.filter has_error ls.
Proof.
  induction ls as [|x ls IH]; [done|]. rewrite filter_cons, IH. cbn [List.filter].
  change (has_error x) with (contains (lit "ERROR") x).
  destruct (decide (contains (lit "ERROR") x = true)) as [->|Hd]; [done|].
  by apply not_true_is_false in Hd as ->.
Qed.

Lemma filter_length_le {A} (p q : A → bool) l :
  (∀ x, p x = true → q x = true) →
  length (List.filter p l) ≤ length (List.filter q l).
Proof.
  intros H. induction l as [|x l IH]; simpl; [done|].
  destruct (p x) eqn:Hp.
  - rewrite (H x Hp). simpl. lia.
  - destruct (q x); simpl; lia.
Qed.

Lemma remove_dups_length_le `{EqDecision A} (l : list A) :
  length (remove_dups l) ≤ length l.
Proof.
  induction l as [|x l IH]; simpl; [done|]. case_match; simpl; lia.
Qed.

Lemma omap_length_le {A B} (f : A → option B) (l : list A) :
  length (omap f l) ≤ length l.
Proof.
  induction l as [|x l IH]; csimpl; [done|]. destruct (f x); csimpl; lia.
Qed.

Section Fallback.
Variable py_list_set : list str → list str.
(** what [list(set(l))] guarantees: the elements of [l], each once *)
Hypothesis set_elements : ∀ l x, In x (py_list_set l) ↔ In x l.
Hypothesis set_nodup : ∀ l, NoDup (py_list_set l).

Lemma similar_before_set query log_text :
  fold_left
    (λ similar line,
       if contains (lit "ERROR") line
       then (if any_word_hits (words (lower query) ++ keywords) (lower line)
             then similar ++ [line] else similar)
       else similar)
    (lines log_text) []
  = List.filter has_error (lines log_text).
Proof.
  change (List.filter has_error (lines log_text))
    with ([] ++ List.filter has_error (lines log_text)).
  rewrite <- collect_filter. apply fold_left_pointwise. intros acc line.
  unfold has_error. destruct (contains (lit "ERROR") line) eqn:E; [|done].
  by rewrite (keyword_error_hits _ _ E).
Qed.

(** X8. The fallback does not depend on the query: since every line
    with [ERROR] in it contains the keyword [error] once put in lower
    case, [find_similar_errors] returns the lines of the log with [ERROR]
    in them, all of them and nothing else. *)
Theorem fallback_is_every_error_line query log_text line :
  In line (find_similar_errors py_list_set query log_text) ↔
  In line (lines log_text) ∧ contains (lit "ERROR") line = true.
Proof using set_elements.
  unfold find_similar_errors. rewrite set_elements, similar_before_set.
  by rewrite filter_In.
Qed.

Section Report.
Context {solution : Type}.
Variable get_relevant_solutions : list str → list solution.
Variable _generate_simple_rca : str → log_data → list str → list solution → str.

Lemma exact_within_errors query log_text :
  length (find_exact_matches query log_text)
  ≤ length (List.filter has_error (lines log_text)).
Proof.
  rewrite find_exact_matches_filter. apply filter_length_le.
  intros x. unfold exact_hit, has_error. by intros [_ ?]%andb_true_iff.
Qed.

Lemma similar_within_errors query log_text :
  length (find_similar_errors py_list_set query log_text)
  ≤ length (List.filter has_error (lines log_text)).
Proof using set_elements set_nodup.
  unfold find_similar_errors. rewrite similar_before_set.
  apply NoDup_incl_length; [apply NoDup_ListNoDup, set_nodup|].
  intros x. apply set_elements.
Qed.

(** X9. The statistics of a report are consistent: the lines that
    answer the query, the exact matches, the similar errors and the
    distinct components are each at most as many as the lines with
    [ERROR] in them. *)
Theorem match_count_bounded query data r :
  process_query py_list_set get_relevant_solutions _generate_simple_rca
    query data = Report r →
  query_matches (stats r) ≤ total_errors (stats r) ∧
  unique_components (stats r) ≤ total_errors (stats r) ∧
  length (exact_matches r) ≤ total_errors (stats r) ∧
  length (similar_errors r) ≤ total_errors (stats r).
Proof using set_elements set_nodup.
  unfold process_query. destruct data as [d|]; [|discriminate].
  destruct (raw d) as [log_text|]; [|discriminate]. intros [= <-]. simpl.
  rewrite error_lines_filter.
  pose proof (exact_within_errors query log_text) as Hexact.
  pose proof (similar_within_errors query log_text) as Hsim.
  assert (length (error_lines py_list_set query log_text)
          ≤ length (List.filter has_error (lines log_text))) as Hfound.
  { unfold error_lines. by destruct (find_exact_matches query log_text). }
  split; [done|]. split.
  { etrans; [apply remove_dups_length_le|]. apply omap_length_le. }
  split; [done|].
  destruct (find_exact_matches query log_text); simpl; [|lia].
  by unfold error_lines in Hfound.
Qed.

(** X10. No query comes back empty-handed from a log that has an
    error in it: the number of lines that answer the query is zero
    exactly when the log has no line with [ERROR] in it. *)
Theorem some_error_some_answer query data r :
  process_query py_list_set get_relevant_solutions _generate_simple_rca
    query data = Report r →
  query_matches (stats r) = 0 ↔ total_errors (stats r) = 0.
Proof using set_elements.
  unfold process_query. destruct data as [d|]; [|discriminate].
  destruct (raw d) as [log_text|]; [|discriminate]. intros [= <-]. simpl.
  rewrite error_lines_filter, !length_zero_iff_nil.
  unfold error_lines. destruct (find_exact_matches query log_text) as [|x exact] eqn:E.
  - unfold find_similar_errors. rewrite similar_before_set. split.
    + intros Hset. destruct (List.filter has_error (lines log_text)) as [|y l]; [done|].
      assert (In y (py_list_set (y :: l))) as Hy by (apply set_elements; by left).
      by rewrite Hset in Hy.
    + intros ->. destruct (py_list_set []) as [|y l] eqn:Hset; [done|].
      assert (In y []) as Hy by (apply set_elements; rewrite Hset; by left). done.
  - split; [done|]. intros Hnone.
    assert (In x (find_exact_matches query log_text)) as Hx by (rewrite E; by left).
    rewrite find_exact_matches_filter in Hx. apply filter_In in Hx as [Hx Hhit].
    assert (In x (List.filter has_error (lines log_text))) as Hin.
    { apply filter_In. split; [done|].
      unfold exact_hit in Hhit. by apply andb_true_iff in Hhit as [_ ?]. }
    by rewrite Hnone in Hin.
Qed.

End Report.
End Fallback.

(** *** The scenarios *)

Lemma remove_dups_elements (l : list str) x : In x (remove_dups l) ↔ In x l.
Proof. rewrite <- !list_elem_of_In. apply elem_of_remove_dups. Qed.

(** a log with two error lines and a query that matches neither *)
Definition two_errors : str :=
  lit "2025-01-01T00:00:00Z - ERROR - Component=DB - Code=E_DB_FAIL - Message=pool exhausted"
  ++ lit (String "010" "")
  ++ lit "2025-01-01T00:00:01Z - INFO - ok"
  ++ lit (String "010" "")
  ++ lit "2025-01-01T00:00:02Z - ERROR - Component=API - Code=E_RATE - Message=quota".

Lemma fallback_is_every_error_line_witness :
  In (lit "2025-01-01T00:00:02Z - ERROR - Component=API - Code=E_RATE - Message=quota")
     (find_similar_errors remove_dups (lit "zebra") two_errors).
Proof.
  apply (fallback_is_every_error_line remove_dups remove_dups_elements
           (lit "zebra") two_errors).
  split; [|reflexivity]. vm_compute. tauto.
Defined.

Lemma match_count_bounded_witness :
  ∃ r, process_query (solution := str) remove_dups (λ _, []) (λ _ _ _ _, [])
         (lit "zebra") (Some {| raw := Some two_errors; file_count := None |})
       = Report r ∧
       query_matches (stats r) ≤ total_errors (stats r) ∧
       unique_components (stats r) ≤ total_errors (stats r) ∧
       length (exact_matches r) ≤ total_errors (stats r) ∧
       length (similar_errors r) ≤ total_errors (stats r).
Proof.
  eexists. split; [reflexivity|].
  apply (match_count_bounded remove_dups remove_dups_elements
           (NoDup_remove_dups (A := str)) (solution := str) (λ _, []) (λ _ _ _ _, [])
           (lit "zebra") (Some {| raw := Some two_errors; file_count := None |})).
  reflexivity.
Defined.

Lemma some_error_some_answer_witness :
  ∃ r, process_query (solution := str) remove_dups (λ _, []) (λ _ _ _ _, [])
         (lit "zebra") (Some {| raw := Some two_errors; file_count := None |})
       = Report r ∧
       (query_matches (stats r) = 0 ↔ total_errors (stats r) = 0).
Proof.
  eexists. split; [reflexivity|].
  apply (some_error_some_answer remove_dups remove_dups_elements
           (solution := str) (λ _, []) (λ _ _ _ _, [])
           (lit "zebra") (Some {| raw := Some two_errors; file_count := None |})).
  reflexivity.
Defined.

End EngineProperties.

(** ** The chunker *)

Module ChunkerFacts.
Import Text Chunker TextFacts.

(** *** [split] and [join] *)

Definition no_newline (l : str) : Prop := Forall (λ c, is_char "010" c = false) l.

Lemma split_on_cons sep s : ∃ l ls, split_on sep s = l :: ls.
Proof.
  induction s as [|c s (l & ls & IH)]; simpl; [by eexists _, _|].
  destruct (is_char sep c); [by eexists _, _|]. rewrite IH. by eexists _, _.
Qed.

Lemma lines_nonempty text : lines text ≠ [].
Proof. unfold lines. by destruct (split_on_cons "010" text) as (l & ls & ->). Qed.

Lemma lines_no_newline text : Forall no_newline (lines text).
Proof.
  unfold lines. induction text as [|c s IH]; simpl.
  - repeat constructor.
  - destruct (is_char "010" c) eqn:Hc.
    + constructor; [constructor|done].
    + destruct (split_on "010" s) as [|l ls]; [repeat constructor; done|].
      inversion IH; subst. constructor; [by constructor|done].
Qed.

(** joining the lines of a text gives the text back *)
Lemma join_lines text : join newline (lines text) = text.
Proof.
  unfold lines. induction text as [|c s IH]; simpl; [done|].
  destruct (is_char "010" c) eqn:Hc.
  - apply is_char_eq in Hc as <-.
    destruct (split_on_cons "010" s) as (l & ls & E). rewrite E in *.
    by rewrite <- IH.
  - destruct (split_on_cons "010" s) as (l & ls & E). rewrite E in *.
    rewrite <- IH. by destruct ls.
Qed.

(** and splitting the join of lines gives the lines back *)
Lemma lines_join (ls : list str) :
  ls ≠ [] → Forall no_newline ls → lines (join newline ls) = ls.
Proof.
  assert (∀ l, no_newline l → ∀ rest, split_on "010" (l ++ newline ++ rest)
                                       = l :: split_on "010" rest) as Hsplit.
  { induction 1 as [|c l Hc Hl IH]; intros rest; simpl; [done|].
    rewrite Hc. simpl in IH. by rewrite IH. }
  assert (∀ l, no_newline l → split_on "010" l = [l]) as Hone.
  { induction 1 as [|c l Hc Hl IH]; simpl; [done|]. by rewrite Hc, IH. }
  unfold lines. induction ls as [|l ls IH]; [done|]. intros _ Hall.
  inversion Hall as [|? ? Hl Hls]; subst.
  destruct ls as [|l' ls']; [by apply Hone|].
  change (join newline (l :: l' :: ls')) with (l ++ newline ++ join newline (l' :: ls')).
  rewrite Hsplit by done. by rewrite IH.
Qed.

(** *** The loop *)

Lemma total_length_from (l : list str) (acc : Z) :
  fold_left (λ acc x, acc + Z.of_nat (length x)) l acc = acc + total_length l.
Proof.
  unfold total_length. revert acc. induction l as [|x l IH]; intros acc; simpl; [lia|].
  rewrite IH, (IH (0 + Z.of_nat (length x))). lia.
Qed.

Lemma total_length_app (a b : list str) :
  total_length (a ++ b) = total_length a + total_length b.
Proof. unfold total_length at 1. by rewrite fold_left_app, total_length_from. Qed.

Lemma total_length_nonneg (l : list str) : 0 ≤ total_length l.
Proof.
  induction l as [|x l IH] using rev_ind; [done|].
  rewrite total_length_app. unfold total_length at 2. simpl. lia.
Qed.

(** a property of the lines read so far and of the state that holds at the
    start and is kept by every turn holds at the end *)
Lemma loop_invariant (c : LogChunker) (all : list str)
    (P : list str → loop_state → Prop) :
  P [] ([], [], 0) →
  (∀ pre line rest s, all = pre ++ line :: rest → P pre s →
                      P (pre ++ [line]) (chunk_step c s line)) →
  P all (fold_left (chunk_step c) all ([], [], 0)).
Proof.
  intros H0 Hstep.
  assert (∀ ls pre s, all = pre ++ ls → P pre s →
                      P all (fold_left (chunk_step c) ls s)) as H.
  { induction ls as [|line ls IH]; intros pre s Hall Hs; simpl.
    - by rewrite Hall, app_nil_r.
    - apply (IH (pre ++ [line])); [by rewrite <- app_assoc|by eapply Hstep]. }
  by apply (H all []).
Qed.

(** the chunks are joins of runs of lines, none of them empty, and every
    line read so far is in a run or in the current chunk, which holds the
    last line *)
Definition covered (pre : list str) (s : loop_state) : Prop :=
  let '(chunks, current_chunk, _) := s in
  (pre ≠ [] → current_chunk ≠ []) ∧
  current_chunk ⊆ pre ∧
  ∃ runs, chunks = map (join newline) runs ∧
          Forall (λ run, run ≠ [] ∧ run ⊆ pre) runs ∧
          ∀ line, line ∈ pre → line ∈ current_chunk ∨ ∃ run, run ∈ runs ∧ line ∈ run.

Lemma chunk_step_covered c pre s line :
  covered pre s → covered (pre ++ [line]) (chunk_step c s line).
Proof.
  destruct s as [[chunks cur] len]. intros (Hne & Hsub & runs & -> & Hruns & Hcov).
  unfold chunk_step.
  destruct ((chunk_size c <? len + Z.of_nat (length line))
            && negb (bool_decide (cur = []))) eqn:Hflush.
  - apply andb_true_iff in Hflush as [_ Hcur].
    apply negb_true_iff, bool_decide_eq_false in Hcur.
    split; [by destruct (drop _ cur)|]. split.
    { intros x Hx. apply elem_of_app in Hx as [Hx|Hx]; apply elem_of_app; [left|by right].
      apply Hsub. by eapply subseteq_drop. }
    exists (runs ++ [cur]). split; [by rewrite map_app|]. split.
    { apply Forall_app. split.
      - eapply Forall_impl; [exact Hruns|]. intros run [? Hr]. split; [done|].
        intros x Hx. apply elem_of_app. left. by apply Hr.
      - repeat constructor; [done|]. intros x Hx. apply elem_of_app. left. by apply Hsub. }
    intros x Hx. apply elem_of_app in Hx as [Hx|Hx].
    + right. destruct (Hcov x Hx) as [Hc|(run & Hr & Hxr)].
      * exists cur. split; [|done]. apply elem_of_app. right. by left.
      * exists run. split; [|done]. apply elem_of_app. by left.
    + left. apply elem_of_app. by right.
  - split; [by destruct cur|]. split.
    { intros x Hx. apply elem_of_app in Hx as [Hx|Hx]; apply elem_of_app; [left|by right].
      by apply Hsub. }
    exists runs. split; [done|]. split.
    { eapply Forall_impl; [exact Hruns|]. intros run [? Hr]. split; [done|].
      intros x Hx. apply elem_of_app. left. by apply Hr. }
    intros x Hx. apply elem_of_app in Hx as [Hx|Hx].
    + destruct (Hcov x Hx) as [Hc|?]; [|by right]. left. apply elem_of_app. by left.
    + left. apply elem_of_app. by right.
Qed.

Lemma chunk_by_semantics_runs c text :
  ∃ runs, chunk_by_semantics c text = map (join newline) runs ∧
          runs ≠ [] ∧
          Forall (λ run, run ≠ [] ∧ run ⊆ lines text) runs ∧
          ∀ line, line ∈ lines text → ∃ run, run ∈ runs ∧ line ∈ run.
Proof.
  unfold chunk_by_semantics.
  pose proof (loop_invariant c (lines text) covered) as H.
  destruct (fold_left (chunk_step c) (lines text) ([], [], 0)) as [[chunks cur] len].
  destruct H as (Hne & Hsub & runs & -> & Hruns & Hcov).
  { split; [done|]. split; [done|]. exists []. split; [done|]. split; [done|].
    intros line Hl. by apply elem_of_nil in Hl. }
  { intros pre line rest s _. apply chunk_step_covered. }
  specialize (Hne (lines_nonempty text)).
  rewrite bool_decide_eq_false_2 by done.
  exists (runs ++ [cur]). split; [by rewrite map_app|].
  split; [by destruct runs|]. split.
  { apply Forall_app. split; [done|]. by repeat constructor. }
  intros line Hl. destruct (Hcov line Hl) as [Hc|(run & Hr & Hxr)].
  - exists cur. split; [|done]. apply elem_of_app. right. by left.
  - exists run. split; [|done]. apply elem_of_app. by left.
Qed.

(** X11. Whatever the sizes, the chunker loses nothing and invents
    nothing: it returns at least one chunk, every line of the text is a
    line of some chunk, and every line of a chunk is a line of the text. *)
Theorem chunks_cover_text c text :
  chunk_by_semantics c text ≠ [] ∧
  (∀ line, line ∈ lines text →
           ∃ chunk, chunk ∈ chunk_by_semantics c text ∧ line ∈ lines chunk) ∧
  (∀ chunk line, chunk ∈ chunk_by_semantics c text → line ∈ lines chunk →
                 line ∈ lines text).
Proof.
  destruct (chunk_by_semantics_runs c text) as (runs & -> & Hne & Hruns & Hcov).
  assert (∀ run, run ∈ runs → lines (join newline run) = run ∧ run ⊆ lines text) as Hrun.
  { intros run Hr. rewrite Forall_forall in Hruns. destruct (Hruns run Hr) as [Hn Hsub].
    split; [|done]. apply lines_join; [done|]. apply Forall_forall. intros l Hl.
    pose proof (lines_no_newline text) as Hall. rewrite Forall_forall in Hall.
    by apply Hall, Hsub. }
  split; [by destruct runs|]. split.
  - intros line Hl. destruct (Hcov line Hl) as (run & Hr & Hlr).
    exists (join newline run). split; [by apply list_elem_of_fmap_2|].
    by rewrite (proj1 (Hrun run Hr)).
  - intros chunk line Hc Hl. apply list_elem_of_fmap in Hc as (run & -> & Hr).
    destruct (Hrun run Hr) as [Heq Hsub]. rewrite Heq in Hl. by apply Hsub.
Qed.

(** nothing has been cut off yet *)
Definition untouched (pre : list str) (s : loop_state) : Prop :=
  s = ([], pre, total_length pre).

(** X12. A text whose lines have together no more characters than
    [chunk_size] is returned as the one chunk. *)
Theorem small_text_one_chunk c text :
  total_length (lines text) ≤ chunk_size c →
  chunk_by_semantics c text = [text].
Proof.
  intros Hsmall. unfold chunk_by_semantics.
  rewrite (loop_invariant c (lines text) untouched).
  - rewrite bool_decide_eq_false_2 by apply lines_nonempty. simpl.
    by rewrite join_lines.
  - done.
  - intros pre line rest s Hall ->. unfold untouched, chunk_step.
    assert (total_length pre + Z.of_nat (length line) ≤ chunk_size c) as Hle.
    { rewrite Hall, total_length_app in Hsmall.
      change (line :: rest) with ([line] ++ rest) in Hsmall.
      rewrite total_length_app in Hsmall.
      pose proof (total_length_nonneg rest). unfold total_length at 2 in Hsmall.
      simpl in Hsmall. lia. }
    apply Z.ltb_ge in Hle. rewrite Hle. simpl.
    rewrite total_length_app. unfold total_length at 3. by simpl.
Qed.

(** every chunk saved so far is the join of a prefix, and the current
    chunk is all that was read *)
Definition nested (pre : list str) (s : loop_state) : Prop :=
  let '(chunks, current_chunk, _) := s in
  current_chunk = pre ∧
  ∀ chunk, chunk ∈ chunks → ∃ n, chunk = join newline (take n pre).

(** X13. The overlap is counted in lines and the size in characters:
    on a text of no more lines than [overlap] nothing is ever dropped from
    the current chunk, so every chunk is the text up to some line and the
    last chunk is the whole text, however small [chunk_size] is. *)
Theorem chunks_nest_within_overlap c text :
  Z.of_nat (length (lines text)) ≤ overlap c →
  (∀ chunk, chunk ∈ chunk_by_semantics c text →
            ∃ n, chunk = join newline (take n (lines text))) ∧
  last (chunk_by_semantics c text) = Some text.
Proof.
  intros Hfew. unfold chunk_by_semantics.
  pose proof (loop_invariant c (lines text) nested) as H.
  destruct (fold_left (chunk_step c) (lines text) ([], [], 0)) as [[chunks cur] len].
  destruct H as [-> Hchunks].
  { split; [done|]. intros chunk Hc. by apply elem_of_nil in Hc. }
  { intros pre line rest [[chunks' cur'] len'] Hall [-> Hprev]. unfold chunk_step.
    assert (∀ chunk, chunk ∈ chunks' → ∃ n, chunk = join newline (take n (pre ++ [line])))
      as Hprev'.
    { intros chunk Hc. destruct (Hprev chunk Hc) as [n ->].
      exists (n `min` length pre)%nat. rewrite take_app_le by lia.
      f_equal. destruct (decide (n ≤ length pre)%nat).
      - by rewrite Nat.min_l.
      - rewrite Nat.min_r, !take_ge by lia. done. }
    destruct ((chunk_size c <? len' + Z.of_nat (length line))
              && negb (bool_decide (pre = []))); [|done].
    assert (Z.to_nat (Z.max 0 (Z.of_nat (length pre) - overlap c)) = 0%nat) as ->.
    { rewrite Hall, length_app in Hfew. simpl in Hfew. lia. }
    rewrite drop_0. split; [done|].
    intros chunk Hc. apply elem_of_app in Hc as [Hc|Hc]; [by apply Hprev'|].
    apply list_elem_of_singleton in Hc as ->. exists (length pre).
    by rewrite take_app_length. }
  rewrite bool_decide_eq_false_2 by apply lines_nonempty. split.
  - intros chunk Hc. apply elem_of_app in Hc as [Hc|Hc]; [by apply Hchunks|].
    apply list_elem_of_singleton in Hc as ->. exists (length (lines text)).
    by rewrite firstn_all.
  - by rewrite last_snoc, join_lines.
Qed.

(** *** The scenarios *)

Definition three_lines : str :=
  lit "aaaa" ++ newline ++ lit "bbbb" ++ newline ++ lit "cccc".

Lemma small_text_one_chunk_witness :
  chunk_by_semantics default_chunker three_lines = [three_lines].
Proof. apply small_text_one_chunk. by vm_compute. Defined.

(** with room for five characters the three lines come back as three
    chunks, each with all the lines before it *)
Lemma chunks_nest_within_overlap_witness :
  chunk_by_semantics {| chunk_size := 5; overlap := 50 |} three_lines
  = [lit "aaaa"; lit "aaaa" ++ newline ++ lit "bbbb"; three_lines] ∧
  last (chunk_by_semantics {| chunk_size := 5; overlap := 50 |} three_lines)
  = Some three_lines.
Proof.
  split; [reflexivity|].
  apply (chunks_nest_within_overlap {| chunk_size := 5; overlap := 50 |} three_lines).
  by vm_compute.
Defined.

End ChunkerFacts.

(** ** The lookups of the knowledge base and the solutions of the engine *)

Module SearchFacts.
Import Py Lib Text Parser TextFacts FlexibleFacts.
Import Solutions.

(** *** The error code of a line *)

Lemma code_re_capture line code :
  group1 (re_search code_re line) = Some code → run is_code code.
Proof.
  intros H. pose proof (re_search_kv (lit "Code=") is_code line) as Hv.
  change (kv_pattern (lit "Code=") is_code) with code_re in Hv. rewrite H in Hv.
  by destruct Hv as (pre & post & _ & Hrun & _).
Qed.

Lemma run_forallb cls (v : str) : run cls v → forallb cls v = true.
Proof.
  intros [_ H]. induction H as [|c v Hc Hv IH]; simpl; [done|]. by rewrite Hc, IH.
Qed.

(** no key of the mock table is made of capitals and underscores *)
Lemma mock_solutions_code code :
  run is_code code → mock_solutions !! string_of_list_ascii code = None.
Proof.
  intros Hrun%run_forallb.
  assert (∀ key, forallb is_code (list_ascii_of_string key) = false →
                 key ≠ string_of_list_ascii code) as Hne.
  { intros key Hkey ->. rewrite list_ascii_of_string_of_list_ascii in Hkey. congruence. }
  unfold mock_solutions.
  rewrite !lookup_insert_ne by (apply Hne; reflexivity). apply lookup_empty.
Qed.

Section Facts.
Context {N : Numeric} {L : Libraries} {D : Decimal}.

(** X14. The engine never sees the mock table of [search_solutions]:
    an error code taken from a line by [Code=([A-Z_]+)] has no digit and
    no dash, so it is not a key of the table ([ERR-001], [ERR-002]) and
    the lookup always goes to the vector search. *)
Theorem mock_table_out_of_reach (k : kb) (line code : str) :
  group1 (re_search code_re line) = Some code →
  mock_solutions !! string_of_list_ascii code = None ∧
  search_solutions k (string_of_list_ascii code) =
    (vector_results ← search_similar_issues k (string_of_list_ascii code) 2;
     mapM solution_of_hit vector_results).
Proof.
  intros Hcode%code_re_capture%mock_solutions_code. split; [done|].
  unfold search_solutions. by rewrite Hcode.
Qed.

(** *** The loop of [get_relevant_solutions] *)

Lemma for_each_invariant {A S} (body : S → A → res S) (P : list A → S → Prop)
    (l : list A) (s0 s' : S) :
  P [] s0 →
  (∀ pre x s s1, P pre s → body s x = Done s1 → P (pre ++ [x]) s1) →
  for_each body l s0 = Done s' → P l s'.
Proof.
  intros H0 Hstep.
  assert (∀ l pre s, P pre s → for_each body l s = Done s' → P (pre ++ l) s') as H.
  { clear l. induction l as [|x l IH]; intros pre s Hs; simpl.
    - intros [= <-]. by rewrite app_nil_r.
    - destruct (body s x) as [s1|e] eqn:Hb; [|discriminate]. simpl. intros Hl.
      rewrite (cons_middle x pre l), app_assoc. apply (IH _ s1); [|done].
      by eapply Hstep. }
  apply (H l [] s0 H0).
Qed.

Lemma shorten_length line : (length (shorten line) ≤ 103)%nat.
Proof.
  unfold shorten. destruct (100 <? length line)%nat eqn:E.
  - rewrite length_app, length_take. change (length (lit "...")) with 3%nat. lia.
  - apply Nat.ltb_ge in E. lia.
Qed.

(** what one turn adds: nothing, or one solution for the line *)
Lemma solutions_for_step k sols line sols' :
  solutions_for k sols line = Done sols' →
  sols' = sols ∨
  ∃ s, sols' = sols ++ [s] ∧ source_line s = shorten line ∧
       group1 (re_search code_re line) ≠ None.
Proof.
  unfold solutions_for. destruct (group1 (re_search code_re line)) as [code|];
    [|intros [= <-]; by left].
  destruct (search_solutions k _) as [[|kb_sol rest]|e]; simpl; [| |discriminate].
  - destruct (search_similar_issues k _ 1) as [[|hit rest]|e]; simpl; [| |discriminate].
    + intros [= <-]. by left.
    + intros [= <-]. right. by eexists.
  - intros [= <-]. right. by eexists.
Qed.

(** X15. [get_relevant_solutions] looks at the first five lines only
    and gives each at most one solution: it returns no more than five
    solutions and no more than there are lines, and each carries the
    line it was found for, whole or cut to a hundred characters and
    three dots, a line that has an error code. *)
Theorem solutions_bounded (k : kb) (error_lines : list str) (sols : list found) :
  get_relevant_solutions k error_lines = Done sols →
  (length sols ≤ 5)%nat ∧ (length sols ≤ length error_lines)%nat ∧
  ∀ s, s ∈ sols →
       (length (source_line s) ≤ 103)%nat ∧
       ∃ line, line ∈ take 5 error_lines ∧ source_line s = shorten line ∧
               group1 (re_search code_re line) ≠ None.
Proof.
  intros H. unfold get_relevant_solutions in H.
  apply (for_each_invariant _
           (λ pre sols, (length sols ≤ length pre)%nat ∧
                        ∀ s, s ∈ sols →
                             ∃ line, line ∈ pre ∧ source_line s = shorten line ∧
                                     group1 (re_search code_re line) ≠ None))
    in H as [Hlen Hall].
  - rewrite length_take in Hlen. split; [lia|]. split; [lia|].
    intros s Hs. destruct (Hall s Hs) as (line & Hl & Hsrc & Hc).
    split; [rewrite Hsrc; apply shorten_length|]. by exists line.
  - split; [done|]. intros s Hs. by apply elem_of_nil in Hs.
  - intros pre line s s1 [Hlen Hall] Hstep.
    assert (∀ x, x ∈ s → ∃ line0, line0 ∈ pre ++ [line] ∧ source_line x = shorten line0 ∧
                                  group1 (re_search code_re line0) ≠ None) as Hold.
    { intros x Hx. destruct (Hall x Hx) as (line0 & ? & ? & ?). exists line0.
      split; [|done]. apply elem_of_app. by left. }
    apply solutions_for_step in Hstep as [->|(new & -> & Hsrc & Hc)].
    + split; [rewrite length_app; lia|done].
    + split; [rewrite !length_app; simpl; lia|].
      intros x Hx. apply elem_of_app in Hx as [Hx|Hx]; [by apply Hold|].
      apply list_elem_of_singleton in Hx as ->. exists line.
      split; [|done]. apply elem_of_app. right. by left.
Qed.

(** *** The second lookup of [get_relevant_solutions] *)

(** The neighbours for a smaller bound are the first of the neighbours
    for a larger one. *)
Class PrefixContract : Prop := {
  faiss_prefix xb q k1 k2 ds1 ids1 ds2 ids2 :
    k1 ≤ k2 →
    faiss_search xb q k1 = Some (ds1, ids1) →
    faiss_search xb q k2 = Some (ds2, ids2) →
    ds1 `prefix_of` ds2 ∧ ids1 `prefix_of` ids2
}.

Lemma vs_search_loop_app mds f p1 p2 acc :
  vs_search_loop mds f (p1 ++ p2) acc =
  match vs_search_loop mds f p1 acc with
  | Ok r => vs_search_loop mds f p2 r
  | Raise x => Raise x
  end.
Proof.
  revert acc. induction p1 as [|[dist idx] p1 IH]; intros acc; simpl; [done|].
  destruct (idx <? Z.of_nat (length mds)); [|apply IH].
  destruct (py_index mds idx) as [m|]; [|done].
  destruct (filter_active f && negb (filter_matches f m)); apply IH.
Qed.

Lemma vs_search_loop_grows mds f pairs acc r :
  vs_search_loop mds f pairs acc = Ok r → (length acc ≤ length r)%nat.
Proof.
  revert acc. induction pairs as [|[dist idx] pairs IH]; intros acc; simpl.
  - by intros [= <-].
  - destruct (idx <? Z.of_nat (length mds)); [|apply IH].
    destruct (py_index mds idx) as [m|]; [|discriminate].
    destruct (filter_active f && negb (filter_matches f m)); [apply IH|].
    intros H%IH. rewrite length_app in H. lia.
Qed.

Lemma zip_prefix {A B} (l1 l2 : list A) (k1 k2 : list B) :
  l1 `prefix_of` l2 → k1 `prefix_of` k2 → zip l1 k1 `prefix_of` zip l2 k2.
Proof.
  intros [a ->] [b ->]. revert k1. induction l1 as [|x l1 IH]; intros k1; simpl.
  - apply prefix_nil.
  - destruct k1 as [|y k1]; simpl; [apply prefix_nil|]. apply prefix_cons, IH.
Qed.

Lemma sorted_desc_nil {A K} (key : A → K) (lt : K → K → bool) l :
  sorted_desc key lt l = [] → l = [].
Proof.
  intros H. apply (f_equal length) in H. rewrite sorted_desc_length in H.
  by destruct l.
Qed.

(** a search that finds nothing among two neighbours finds nothing in
    the first of them *)
Lemma vs_search_empty_shrinks {P : PrefixContract} vs query f k1 k2 :
  k1 ≤ k2 → vs_search vs query k2 f = Ok [] →
  vs_search vs query k1 f = Ok [] ∨ vs_search vs query k1 f = Raise LibraryError.
Proof.
  intros Hk. unfold vs_search. destruct (vs_index vs) as [i|]; [|by left].
  destruct (bool_decide (length (flat_xb i) = 0%nat)); [by left|].
  destruct (faiss_search _ _ (Z.min k2 _)) as [[ds2 ids2]|] eqn:E2; [|discriminate].
  destruct (faiss_search _ _ (Z.min k1 _)) as [[ds1 ids1]|] eqn:E1; [|by right].
  destruct (faiss_prefix _ _ _ _ _ _ _ _ (Z.min_le_compat_r _ _ _ Hk) E1 E2)
    as [Hds Hids].
  destruct (zip_prefix _ _ _ _ Hds Hids) as [rest ->].
  rewrite vs_search_loop_app.
  destruct (vs_search_loop (vs_metadata vs) f (zip ds1 ids1) []) as [r1|x]; [|discriminate].
  destruct (vs_search_loop (vs_metadata vs) f rest r1) as [r2|x] eqn:E; [|discriminate].
  intros [= H%sorted_desc_nil]. subst r2. apply vs_search_loop_grows in E.
  destruct r1; [by left|simpl in E; lia].
Qed.

Lemma mapM_nil_inv {A B} (f : A → res B) l : mapM f l = Done [] → l = [].
Proof.
  destruct l as [|x l]; [done|]. simpl.
  destruct (f x); simpl; [|discriminate]. by destruct (mapM f l).
Qed.

Lemma search_solutions_empty {P : PrefixContract} k error_code :
  search_solutions k error_code = Done [] →
  search_similar_issues k error_code 1 = Done [] ∨
  ∃ e, search_similar_issues k error_code 1 = Fail e.
Proof.
  unfold search_solutions.
  destruct (mock_solutions !! error_code) as [sols|] eqn:Hmock.
  { intros [= ->]. exfalso. revert Hmock. unfold mock_solutions.
    rewrite lookup_insert_Some. intros [[_ ?]|[_ H]]; [done|]. revert H.
    rewrite lookup_insert_Some. intros [[_ ?]|[_ H]]; [done|].
    by rewrite lookup_empty in H. }
  destruct (search_similar_issues k error_code 2) as [hits|e] eqn:E2; [|discriminate].
  simpl. intros ->%mapM_nil_inv. revert E2. unfold search_similar_issues.
  destruct (vs_search (vector_store k) error_code 2 None) as [r2|x] eqn:Ev; [|discriminate].
  intros ->%mapM_nil_inv.
  destruct (vs_search_empty_shrinks (vector_store k) error_code None 1 2) as [->| ->];
    [lia|done|by left|by right; eexists].
Qed.

(** X16. The second lookup of [get_relevant_solutions] never adds a
    solution: it is made only when [search_solutions] found nothing among
    the two nearest entries, and then the nearest entry alone gives
    nothing either, as long as the nearest neighbours for a smaller bound
    are the first of those for a larger one.  Every solution returned is
    therefore marked as an exact match. *)
Theorem similar_lookup_adds_nothing {P : PrefixContract}
    (k : kb) (error_lines : list str) (sols : list found) :
  get_relevant_solutions k error_lines = Done sols →
  ∀ s, s ∈ sols → exact_match s = true.
Proof.
  intros H. unfold get_relevant_solutions in H.
  refine (for_each_invariant (solutions_for k)
            (λ _ sols, ∀ s, s ∈ sols → exact_match s = true) _ [] sols _ _ H);
    [by intros s Hs; apply elem_of_nil in Hs|].
  clear H. intros _ line sols0 sols' Hall. unfold solutions_for.
  destruct (group1 (re_search code_re line)) as [code|]; [|by intros [= <-]].
  destruct (search_solutions k _) as [[|kb_sol rest]|e] eqn:Hs; simpl; [| |discriminate].
  - destruct (search_solutions_empty _ _ Hs) as [->|[e ->]]; [|discriminate].
    by intros [= <-].
  - intros [= <-] s Hin. apply elem_of_app in Hin as [Hin|Hin]; [by apply Hall|].
    by apply list_elem_of_singleton in Hin as ->.
Qed.

(** *** The two stores *)

Definition similarity_of (p : num * meta) : num * meta :=
  (ndiv num1 (nadd num1 p.1), p.2).

Lemma loops_agree mds f pairs acc :
  match format_loop mds f pairs acc with
  | Ok r => vs_search_loop mds f pairs (map similarity_of acc) = Ok (map similarity_of r)
  | Raise x => vs_search_loop mds f pairs (map similarity_of acc) = Raise x
  end.
Proof.
  revert acc. induction pairs as [|[dist idx] pairs IH]; intros acc; simpl; [done|].
  destruct (idx <? Z.of_nat (length mds)); [|apply IH].
  destruct (py_index mds idx) as [m|]; [|done].
  destruct (filter_active f && negb (filter_matches f m)); [apply IH|].
  specialize (IH (acc ++ [(dist, m)])). by rewrite map_app in IH.
Qed.

(** X17. The two stores answer the same search with different
    scores.  Over the same rows and the same metadata, [VectorStore] and
    [FlexibleVectorStore] on faiss fail together, and otherwise keep the
    same neighbours; but the first scores a neighbour at distance [d]
    with [1 / (1 + d)] and the second with [d] itself, each sorting its
    scores in descending order. *)
Theorem two_stores_two_scores (st : store) (vs : vstore) d xb query top_k f :
  backend st = Some Faiss → index st = Some (IndexFlatL2 d xb) →
  vs_index vs = Some {| flat_d := d; flat_xb := xb |} →
  vs_metadata vs = metadata st → metadata st ≠ [] → xb ≠ [] →
  match search st query top_k f with
  | Ok res =>
      ∃ neighbours,
        res = sorted_desc fst nltb neighbours ∧
        vs_search vs query top_k f
        = Ok (sorted_desc fst nltb (map similarity_of neighbours))
  | Raise x => vs_search vs query top_k f = Raise x
  end.
Proof.
  intros Hb Hi Hvi Hvm Hm Hxb. unfold search, vs_search.
  rewrite Hi, Hb, Hvi, Hvm. simpl flat_xb.
  destruct (metadata st) as [|m ms] eqn:Em; [done|].
  rewrite bool_decide_eq_false_2 by (by destruct xb).
  unfold _search_faiss, _format_results. rewrite Hi, Em.
  destruct (faiss_search _ _ _) as [[ds ids]|]; [|done].
  pose proof (loops_agree (m :: ms) f (zip ds ids) []) as H.
  destruct (format_loop (m :: ms) f (zip ds ids) []) as [r|x]; simpl in H; rewrite H; [|done].
  by exists r.
Qed.

(** *** What [index_kb] writes and what the lookups read *)

(** a metadata dictionary as [index_kb] makes them *)
Definition indexed (m : meta) : Prop := ∃ i e, m = entry_metadata i e.

Definition well_indexed (k : kb) : Prop :=
  Forall indexed (vs_metadata (vector_store k)).

Lemma vs_search_metadata vs query top_k f res :
  vs_search vs query top_k f = Ok res →
  Forall (λ r, r.2 ∈ vs_metadata vs) res.
Proof.
  unfold vs_search. destruct (vs_index vs) as [i|]; [|by intros [= <-]].
  destruct (bool_decide _); [by intros [= <-]|].
  destruct (faiss_search _ _ _) as [[ds ids]|]; [|discriminate].
  pose proof (loops_agree (vs_metadata vs) f (zip ds ids) []) as H.
  destruct (format_loop (vs_metadata vs) f (zip ds ids) []) as [r|x] eqn:E;
    simpl in H; rewrite H; [|discriminate].
  intros [= <-]. apply Forall_forall. intros p Hp. rewrite sorted_desc_perm in Hp.
  apply list_elem_of_fmap in Hp as (p0 & -> & Hp0).
  apply format_loop_kept in E; [|constructor]. rewrite Forall_forall in E.
  destruct (E p0 Hp0) as [Hin _]. by apply list_elem_of_In.
Qed.

Lemma mapM_Done {A B} (f : A → res B) (Q : B → Prop) (l : list A) :
  Forall (λ x, ∃ y, f x = Done y ∧ Q y) l →
  ∃ ys, mapM f l = Done ys ∧ Forall Q ys ∧ length ys = length l.
Proof.
  induction 1 as [|x l (y & Hy & Hq) _ (ys & IH & Hys & Hlen)]; simpl.
  - by exists [].
  - rewrite Hy. simpl. rewrite IH. simpl. exists (y :: ys).
    split; [done|]. split; [by constructor|]. simpl. by rewrite Hlen.
Qed.

(** a hit made from such a dictionary has a string for its solution and
    a list for its components *)
Definition typed_hit (hit : issue_hit) : Prop :=
  (∃ s, h_solution hit = VStr s) ∧ (∃ l, h_affected_components hit = VStrs l).

Lemma format_hit_indexed similarity m :
  indexed m → ∃ hit, format_hit (similarity, m) = Done hit ∧ typed_hit hit.
Proof.
  intros (i & e & ->). unfold format_hit, py_item, entry_metadata.
  repeat (rewrite ?lookup_insert_eq; rewrite ?lookup_insert_ne by done; simpl).
  eexists. split; [reflexivity|]. split; simpl; by eexists.
Qed.

Lemma solution_of_hit_typed hit : typed_hit hit → ∃ sol, solution_of_hit hit = Done sol.
Proof.
  intros [[s Hs] [l Hl]]. unfold solution_of_hit. rewrite Hs, Hl. simpl.
  destruct l as [|x l]; simpl; by eexists.
Qed.

Lemma search_similar_issues_indexed k query top_k :
  well_indexed k →
  match vs_search (vector_store k) query top_k None with
  | Ok results =>
      ∃ hits, search_similar_issues k query top_k = Done hits ∧
              Forall typed_hit hits ∧ length hits = length results
  | Raise x => search_similar_issues k query top_k = Fail (Exn x)
  end.
Proof.
  intros Hk. unfold search_similar_issues.
  destruct (vs_search (vector_store k) query top_k None) as [results|x] eqn:E; [|done].
  apply mapM_Done. apply vs_search_metadata in E.
  eapply Forall_impl; [exact E|]. intros [similarity m] Hm. simpl in Hm.
  apply format_hit_indexed. unfold well_indexed in Hk. rewrite Forall_forall in Hk.
  by apply Hk.
Qed.

Lemma index_kb_well_indexed k fs : well_indexed k → well_indexed (index_kb k fs).1.
Proof.
  intros Hk. unfold well_indexed. rewrite KbFacts.index_kb_store.
  destruct (entries k) as [|e es] eqn:He; [done|].
  rewrite KbFacts.vs_add_documents_metadata by done.
  apply Forall_app. split; [exact Hk|].
  apply Forall_forall. intros m Hin.
  apply elem_of_lookup_imap in Hin as (j & e' & -> & _). by exists j, e'.
Qed.

Lemma kb_init_well_indexed path fs :
  pkl_files fs !! "kb_index"%string = None → well_indexed (kb_init path fs).1.
Proof.
  intros Hnone. unfold kb_init.
  destruct (load_kb _ fs) as [k1 fs1] eqn:Hload. apply index_kb_well_indexed.
  assert (vector_store k1 = vs_init fs "kb_index") as Hvs.
  { revert Hload. unfold load_kb. cbn [kb_path]. by case_match; intros [= <- <-]. }
  unfold well_indexed. rewrite Hvs. unfold vs_init, vs_load_index. rewrite Hnone.
  by destruct (faiss_files fs !! _).
Qed.

(** X18. The metadata of the index of a knowledge base keep the
    shape [index_kb] gives them: a knowledge base constructed where no
    metadata file of the index exists has them in that shape, and
    [add_fix] keeps them so. *)
Theorem index_kb_shapes_metadata :
  (∀ path fs, pkl_files fs !! "kb_index"%string = None →
              well_indexed (kb_init path fs).1) ∧
  (∀ i rc s ac tg k fs, well_indexed k → well_indexed (add_fix i rc s ac tg k fs).1).
Proof.
  split; [apply kb_init_well_indexed|].
  intros i rc s ac tg k fs Hk. unfold add_fix. by apply index_kb_well_indexed.
Qed.

(** X19. The lookups read what [index_kb] writes: on a knowledge
    base whose index metadata have that shape no subscript fails, the
    two lookups raise only what [VectorStore.search] raises, and
    [search_similar_issues] returns one hit for each result of the
    search. *)
Theorem lookups_read_what_index_kb_writes (k : kb) :
  well_indexed k →
  (∀ query top_k,
     match vs_search (vector_store k) query top_k None with
     | Ok results =>
         ∃ hits, search_similar_issues k query top_k = Done hits ∧
                 length hits = length results
     | Raise x => search_similar_issues k query top_k = Fail (Exn x)
     end) ∧
  (∀ error_code e,
     search_solutions k error_code = Fail e →
     ∃ x, e = Exn x ∧ vs_search (vector_store k) error_code 2 None = Raise x).
Proof.
  intros Hk. split.
  - intros query top_k. pose proof (search_similar_issues_indexed k query top_k Hk) as H.
    destruct (vs_search (vector_store k) query top_k None) as [results|x]; [|done].
    destruct H as (hits & ? & _ & ?). by exists hits.
  - intros error_code e. unfold search_solutions.
    destruct (mock_solutions !! error_code); [discriminate|].
    pose proof (search_similar_issues_indexed k error_code 2 Hk) as H.
    destruct (vs_search (vector_store k) error_code 2 None) as [results|x].
    + destruct H as (hits & -> & Hty & _). simpl.
      destruct (mapM_Done solution_of_hit (λ _, True) hits) as (sols & -> & _); [|done].
      eapply Forall_impl; [exact Hty|]. intros hit [sol ->]%solution_of_hit_typed.
      by exists sol.
    + rewrite H. simpl. intros [= <-]. by exists x.
Qed.

End Facts.

(** *** The scenarios *)

Import Reference Scenario.

(** [np.round(x, 3)]: scale, round to the nearest integer, scale back.
    Adding and taking away [2^52] rounds a smaller number to the nearest
    integer, ties to even. *)
Definition float_rint (x : float) : float :=
  let c := 4503599627370496%float in
  if (PrimFloat.abs x <? c)%float
  then (if (x <? 0)%float then (x - c) + c else (x + c) - c)%float
  else x.

#[export] Instance float_decimal : Decimal := {|
  round3 := λ x, (float_rint (x * 1000) / 1000)%float;
  num_0_8 := 0x1.999999999999ap-1%float;
  num_0_6 := 0x1.3333333333333p-1%float
|}.

Lemma reference_prefix_contract : PrefixContract (L := float_libraries).
Proof.
  split. simpl. intros xb q k1 k2 ds1 ids1 ds2 ids2 Hk.
  destruct (k1 <=? 0) eqn:E1; [discriminate|]. destruct (k2 <=? 0); [discriminate|].
  unfold scan. intros [= <- <-] [= <- <-].
  assert (∀ A B (f : A → B) (l : list A),
            map f (take (Z.to_nat k1) l) `prefix_of` map f (take (Z.to_nat k2) l)) as Hp.
  { intros A B f l. exists (map f (drop (Z.to_nat k1) (take (Z.to_nat k2) l))).
    rewrite <- map_app. f_equal.
    replace (take (Z.to_nat k1) l) with (take (Z.to_nat k1) (take (Z.to_nat k2) l))
      by (rewrite take_take; f_equal; lia).
    symmetry. apply take_drop. }
  split; apply Hp.
Qed.

(** the knowledge base constructed first, with its three entries indexed *)
Definition seeded : kb := (kb_init None no_files).1.

Lemma mock_table_out_of_reach_witness :
  mock_solutions !! string_of_list_ascii (lit "E_DB_FAIL") = None ∧
  search_solutions seeded (string_of_list_ascii (lit "E_DB_FAIL")) =
    (vector_results ←
       search_similar_issues seeded (string_of_list_ascii (lit "E_DB_FAIL")) 2;
     mapM solution_of_hit vector_results).
Proof.
  apply (mock_table_out_of_reach seeded sample_line (lit "E_DB_FAIL")).
  vm_compute. reflexivity.
Defined.

Lemma solutions_bounded_witness :
  ∃ sols, get_relevant_solutions seeded [sample_line] = Done sols ∧
          (length sols ≤ 5)%nat ∧ (length sols ≤ length [sample_line])%nat ∧
          ∀ s, s ∈ sols →
               (length (source_line s) ≤ 103)%nat ∧
               ∃ line, line ∈ take 5 [sample_line] ∧ source_line s = shorten line ∧
                       group1 (re_search code_re line) ≠ None.
Proof.
  assert (∃ sols, get_relevant_solutions seeded [sample_line] = Done sols)
    as [sols H] by (eexists; vm_compute; reflexivity).
  exists sols. split; [exact H|]. exact (solutions_bounded seeded [sample_line] sols H).
Defined.

Lemma similar_lookup_adds_nothing_witness :
  ∃ sols, get_relevant_solutions seeded [sample_line] = Done sols ∧
          ∀ s, s ∈ sols → exact_match s = true.
Proof.
  assert (∃ sols, get_relevant_solutions seeded [sample_line] = Done sols)
    as [sols H] by (eexists; vm_compute; reflexivity).
  exists sols. split; [exact H|].
  exact (similar_lookup_adds_nothing (P := reference_prefix_contract)
           seeded [sample_line] sols H).
Defined.

(** the two stores after the same two documents *)
Definition twin_store : vstore :=
  (vs_add_documents ["a"; "a"]%string [doc_meta 0; doc_meta 1]
     (vs_init no_files "log_index") no_files).1.

Lemma two_stores_two_scores_witness :
  match search (twins every_package).1 "q" 2 None with
  | Ok res =>
      ∃ neighbours,
        res = sorted_desc fst nltb neighbours ∧
        vs_search twin_store "q" 2 None
        = Ok (sorted_desc fst nltb (map similarity_of neighbours))
  | Raise x => vs_search twin_store "q" 2 None = Raise x
  end.
Proof.
  eapply (two_stores_two_scores (twins every_package).1 twin_store);
    [reflexivity|reflexivity|reflexivity|reflexivity|discriminate|discriminate].
Defined.

Lemma lookups_read_what_index_kb_writes_witness :
  (∀ query top_k,
     match vs_search (vector_store seeded) query top_k None with
     | Ok results =>
         ∃ hits, search_similar_issues seeded query top_k = Done hits ∧
                 length hits = length results
     | Raise x => search_similar_issues seeded query top_k = Fail (Exn x)
     end) ∧
  (∀ error_code e,
     search_solutions seeded error_code = Fail e →
     ∃ x, e = Exn x ∧ vs_search (vector_store seeded) error_code 2 None = Raise x).
Proof.
  apply (lookups_read_what_index_kb_writes seeded).
  apply kb_init_well_indexed. reflexivity.
Defined.

End SearchFacts.
